(** * The measure tagger of the text-normalization grammars

    A shallow embedding of
    [nemo_text_processing/text_normalization/taggers/measure.py].

    The source builds a finite-state transducer out of pynini combinators.
    A transducer is embedded by its denotation: the function that sends an
    input string to the list of the output strings of its accepting paths.
    Every combinator the source uses ([+], [|], [@], [-], [closure],
    [cross], [insert], [delete], [string_file]) gets its denotation, and
    [MeasureFst] is then written with them exactly as [__init__] is.

    The file has two parts: the model (the combinators, what the module
    imports, the grammar, a small instance of the collaborators), then the
    proofs (the relation each piece computes, the properties of the
    tagger). *)

From Stdlib Require Import List String Ascii Bool Arith Lia.
Import ListNotations.

Local Open Scope list_scope.
Local Open Scope string_scope.

(** * The model *)

(** ** Strings *)

Module Str.

(** [starts_with p s]: the Python [s.startswith(p)]. *)
Fixpoint starts_with (p s : string) : bool :=
  match p, s with
  | EmptyString, _ => true
  | String a p', String b s' => Ascii.eqb a b && starts_with p' s'
  | String _ _, EmptyString => false
  end.

(** All the ways of cutting a string in two, leftmost cut first. *)
Fixpoint splits (s : string) : list (string * string) :=
  match s with
  | EmptyString => [("", "")]
  | String c s' => ("", s) :: map (fun p => (String c (fst p), snd p)) (splits s')
  end.

(** Replace every occurrence of one character by a string. *)
Fixpoint replace_char (c : ascii) (by_ : string) (s : string) : string :=
  match s with
  | EmptyString => ""
  | String d s' =>
      (if Ascii.eqb d c then by_ else String d "") ++ replace_char c by_ s'
  end.

End Str.

(** The double-quote character as a string (an escaped quote in the
    Python literals), and a string between two of them. *)
Definition dq : string := String "034" EmptyString.
Definition quoted (s : string) : string := dq ++ s ++ dq.

(** ** Transducers and the pynini combinators

    [f i] lists the outputs of the transducer [f] on the whole input [i];
    the empty list means that [i] is not in the domain of [f].  Weights play
    no part in this module (every [insert], [delete] and [cross] of the
    source is unweighted). *)

Definition Fst : Type := string -> list string.

Declare Scope fst_scope.
Delimit Scope fst_scope with fst.
Bind Scope fst_scope with Fst.

Module pynini.

(** [pynini.cross(a, b)]: rewrites exactly [a] to [b]. *)
Definition cross (a b : string) : Fst :=
  fun i => if String.eqb i a then [b] else [].

(** [pynini.accep(a)], which a bare Python string stands for. *)
Definition accep (a : string) : Fst := cross a a.

(** [f + g]: concatenation. *)
Definition concat (f g : Fst) : Fst :=
  fun i =>
    flat_map (fun p =>
      flat_map (fun o1 => map (String.append o1) (g (snd p))) (f (fst p)))
      (Str.splits i).

(** [f | g]: union. *)
Definition union (f g : Fst) : Fst := fun i => (f i ++ g i)%list.

(** [f @ g]: composition, the output of [f] is the input of [g]. *)
Definition compose (f g : Fst) : Fst := fun i => flat_map g (f i).

(** [f - a] for a string [a]: [f] without [a] in its domain. *)
Definition difference (f : Fst) (a : string) : Fst :=
  fun i => if String.eqb i a then [] else f i.

(** The Kleene star, for the transducers the source closes: acceptors, which
    emit nothing on the empty input.  A step therefore consumes a non-empty
    prefix, and the length of the input is fuel enough. *)
Fixpoint star_fuel (n : nat) (f : Fst) (i : string) : list string :=
  ((if String.eqb i "" then [""] else []) ++
  match n with
  | O => []
  | S n' =>
      flat_map (fun p =>
        match fst p with
        | EmptyString => []
        | _ =>
            flat_map (fun o1 => map (String.append o1) (star_fuel n' f (snd p)))
              (f (fst p))
        end) (Str.splits i)
  end)%list.

Definition star (f : Fst) : Fst := fun i => star_fuel (length i) f i.

(** [pynini.closure(f)], [pynini.closure(f, 1)] and [pynini.closure(f, 0, 1)],
    the three forms the source and its helpers use. *)
Definition closure (f : Fst) : Fst := star f.
Definition closure_1 (f : Fst) : Fst := concat f (star f).
Definition closure_0_1 (f : Fst) : Fst := union (accep "") f.

(** [pynini.union] of string arguments: the acceptor of a finite set of
    strings. *)
Definition union_of (l : list string) : Fst :=
  fun i => if existsb (String.eqb i) l then [i] else [].

(** [pynini.string_file(path)]: the union of [cross(key, value)] over the
    lines of a tab-separated table, here the table itself. *)
Definition string_file (table : list (string * string)) : Fst :=
  fun i => map snd (filter (fun kv => String.eqb i (fst kv)) table).

End pynini.

Module pynutil.

(** [pynutil.insert(s)]: consumes nothing and emits [s]. *)
Definition insert (s : string) : Fst := pynini.cross "" s.

(** [pynutil.delete(f)]: consumes what [f] accepts and emits nothing. *)
Definition delete (f : Fst) : Fst := fun i => map (fun _ => "") (f i).

End pynutil.

Notation "f + g" := (pynini.concat f g) : fst_scope.
Notation "f <|> g" := (pynini.union f g) (at level 55, left associativity) : fst_scope.
Notation "f @@ g" := (pynini.compose f g) (at level 45, left associativity) : fst_scope.

(** ** What the module imports from [graph_utils]

    [graph_utils.py], the data files and the cardinal and decimal taggers
    are collaborators of this module.  What the measure grammar does not
    fix of them is a field of [Setting] below. *)

(** A tagger object as far as this module reads it: [cardinal.graph],
    [cardinal.range_graph] and [decimal.final_graph_wo_negative]. *)
Record CardinalFst := { graph : Fst; range_graph : Fst }.
Record DecimalFst := { final_graph_wo_negative : Fst }.

(** The acceptor of the one-character strings whose character is in a
    class. *)
Definition char_class (p : ascii -> bool) : Fst :=
  fun i =>
    match i with
    | String c EmptyString => if p c then [i] else []
    | _ => []
    end.

(** Modelled from the spec: [NEMO_SIGMA], the acceptor of every string
    (the spec has [NEMO_SIGMA - "1"] exclude the literal 1 and nothing else
    from the domain of the cardinal grammar). *)
Definition NEMO_SIGMA : Fst := fun i => [i].

(** Modelled from the spec: [GraphFst.add_tokens], the outer envelope
    [name { ... }] around the annotation of a tagger. *)
Definition add_tokens (name : string) (f : Fst) : Fst :=
  (pynutil.insert (name ++ " { ") + f + pynutil.insert " }")%fst.

(** [Fst.optimize()] changes the automaton, not the relation it computes. *)
Definition optimize (f : Fst) : Fst := f.

(** A run of strings of a finite set, and a string of characters of a
    class. *)
Inductive run_of (l : list string) : string -> Prop :=
| run_nil : run_of l ""
| run_cons w r : In w l -> run_of l r -> run_of l (w ++ r).

Fixpoint all_chars (p : ascii -> bool) (s : string) : bool :=
  match s with
  | EmptyString => true
  | String c r => p c && all_chars p r
  end.

(** ** The setting of the grammar

    What the construction is given.  The first five fields stand for what
    [graph_utils] and the data files hold and this module does not fix; the
    last three are the arguments of [MeasureFst.__init__]. *)
Class Setting := {
  (** which characters [NEMO_ALPHA] accepts *)
  is_alpha : ascii -> bool;
  (** the literals [NEMO_WHITE_SPACE] is the union of *)
  white_space : list string;
  (** the separator that stands for a space inside one token *)
  NEMO_NON_BREAKING_SPACE : string;
  (** the singular-to-plural transducer *)
  SINGULAR_TO_PLURAL : Fst;
  (** the lines of [data/measurements.tsv] *)
  measurements : list (string * string);
  cardinal : CardinalFst;
  decimal : DecimalFst;
  deterministic : bool
}.

(** The same setting in the other mode, and with another range graph. *)
Definition with_mode (Env : Setting) (det : bool) : Setting :=
  {| is_alpha := is_alpha; white_space := white_space;
     NEMO_NON_BREAKING_SPACE := NEMO_NON_BREAKING_SPACE;
     SINGULAR_TO_PLURAL := SINGULAR_TO_PLURAL; measurements := measurements;
     cardinal := cardinal; decimal := decimal; deterministic := det |}.


(** ** The grammar *)

Section Measure.

Context {Env : Setting}.

(** Modelled from the spec: [NEMO_ALPHA], the alphabetic characters; which
    characters are alphabetic is left open. *)
Definition NEMO_ALPHA : Fst := char_class is_alpha.

(** Modelled from the spec: the whitespace strings ([NEMO_WHITE_SPACE] is a
    union of literals, one of them longer than a byte), and [delete_space],
    which discards any run of them. *)
Definition NEMO_WHITE_SPACE : Fst := pynini.union_of white_space.
Definition delete_space : Fst := pynutil.delete (pynini.closure NEMO_WHITE_SPACE).

(** Modelled from the spec: [convert_space] carries the spaces inside the
    output of a transducer as [NEMO_NON_BREAKING_SPACE]. *)
Definition convert_space (f : Fst) : Fst :=
  (f @@ (fun o => [Str.replace_char " " NEMO_NON_BREAKING_SPACE o]))%fst.

(** *** [MeasureFst.__init__] *)

Definition cardinal_graph : Fst :=
  if negb deterministic
  then (graph cardinal <|> range_graph cardinal)%fst
  else graph cardinal.

(** [graph_unit] is assigned twice in the source: [graph_unit_0] is its first
    value, the table itself, and [graph_unit] its second. *)
Definition graph_unit_0 : Fst := pynini.string_file measurements.
Definition graph_unit_plural : Fst :=
  convert_space (graph_unit_0 @@ SINGULAR_TO_PLURAL)%fst.
Definition graph_unit : Fst := convert_space graph_unit_0.

Definition optional_graph_negative : Fst :=
  pynini.closure_0_1
    (pynutil.insert "negative: " + pynini.cross "-" (dq ++ "true" ++ dq ++ " "))%fst.

Definition graph_unit2 : Fst :=
  (pynini.cross "/" "per" + delete_space
   + pynutil.insert NEMO_NON_BREAKING_SPACE + graph_unit)%fst.

Definition optional_graph_unit2 : Fst :=
  pynini.closure_0_1
    (delete_space + pynutil.insert NEMO_NON_BREAKING_SPACE + graph_unit2)%fst.

Definition unit_plural : Fst :=
  (pynutil.insert ("units: " ++ dq)
   + (graph_unit_plural + optional_graph_unit2 <|> graph_unit2)
   + pynutil.insert dq)%fst.

Definition unit_singular : Fst :=
  (pynutil.insert ("units: " ++ dq)
   + (graph_unit + optional_graph_unit2 <|> graph_unit2)
   + pynutil.insert dq)%fst.

Definition subgraph_decimal : Fst :=
  (pynutil.insert "decimal { "
   + optional_graph_negative
   + final_graph_wo_negative decimal
   + delete_space
   + pynutil.insert " } "
   + unit_plural)%fst.

Definition subgraph_cardinal_plural : Fst :=
  (pynutil.insert "cardinal { "
   + optional_graph_negative
   + pynutil.insert ("integer: " ++ dq)
   + (pynini.difference NEMO_SIGMA "1" @@ cardinal_graph)
   + delete_space
   + pynutil.insert dq
   + pynutil.insert " } "
   + unit_plural)%fst.

Definition subgraph_cardinal_singular : Fst :=
  (pynutil.insert "cardinal { "
   + optional_graph_negative
   + pynutil.insert ("integer: " ++ dq)
   + pynini.cross "1" "one"
   + delete_space
   + pynutil.insert dq
   + pynutil.insert " } "
   + unit_singular)%fst.

(** [subgraph_cardinal] after the [|=] of the source;
    [subgraph_cardinal_plural] is its first value and
    [subgraph_cardinal_singular] the operand of the [|=]. *)
Definition subgraph_cardinal : Fst :=
  (subgraph_cardinal_plural <|> subgraph_cardinal_singular)%fst.

Definition cardinal_dash_alpha : Fst :=
  (pynutil.insert ("cardinal { integer: " ++ dq)
   + cardinal_graph
   + pynini.cross "-" ""
   + pynutil.insert (dq ++ " } units: " ++ dq)
   + pynini.closure_1 NEMO_ALPHA
   + pynutil.insert dq)%fst.

Definition alpha_dash_cardinal : Fst :=
  (pynutil.insert ("units: " ++ dq)
   + pynini.closure_1 NEMO_ALPHA
   + pynini.cross "-" ""
   + pynutil.insert dq
   + pynutil.insert (" cardinal { integer: " ++ dq)
   + cardinal_graph
   + pynutil.insert (dq ++ " } preserve_order: true"))%fst.

Definition decimal_dash_alpha : Fst :=
  (pynutil.insert "decimal { "
   + final_graph_wo_negative decimal
   + pynini.cross "-" ""
   + pynutil.insert (" } units: " ++ dq)
   + pynini.closure_1 NEMO_ALPHA
   + pynutil.insert dq)%fst.

Definition alpha_dash_decimal : Fst :=
  (pynutil.insert ("units: " ++ dq)
   + pynini.closure_1 NEMO_ALPHA
   + pynini.cross "-" ""
   + pynutil.insert dq
   + pynutil.insert " decimal { "
   + final_graph_wo_negative decimal
   + pynutil.insert " } preserve_order: true")%fst.

Definition final_graph : Fst :=
  (subgraph_decimal
   <|> subgraph_cardinal
   <|> cardinal_dash_alpha
   <|> alpha_dash_cardinal
   <|> decimal_dash_alpha
   <|> alpha_dash_decimal)%fst.

(** [self.fst] of the constructed [MeasureFst]. *)
Definition MeasureFst : Fst := optimize (add_tokens "measure" final_graph).

(** *** Names for the statements

    A run of whitespace, a unit name with its spaces joined, and a
    non-empty alphabetic string. *)
Definition whitespace (s : string) : Prop := run_of white_space s.
Definition joined (name : string) : string :=
  Str.replace_char " " NEMO_NON_BREAKING_SPACE name.
Definition alphabetic (s : string) : Prop :=
  s <> "" /\ all_chars is_alpha s = true.

(** The alternation between the quotes of [unit_plural] and of
    [unit_singular]: what the units field holds. *)
Definition units_plural : Fst :=
  (graph_unit_plural + optional_graph_unit2 <|> graph_unit2)%fst.
Definition units_singular : Fst :=
  (graph_unit + optional_graph_unit2 <|> graph_unit2)%fst.

End Measure.

(** ** The relation a transducer computes

    [rewrites f i o]: the transducer [f] has an accepting path that reads
    [i] and writes [o]. *)

Definition rewrites (f : Fst) (i o : string) : Prop := In o (f i).

(** The star as a relation: a sequence of steps of [f]. *)
Inductive star_rel (f : Fst) : string -> string -> Prop :=
| star_nil : star_rel f "" ""
| star_step i1 i2 o1 o2 :
    rewrites f i1 o1 -> star_rel f i2 o2 -> star_rel f (i1 ++ i2) (o1 ++ o2).

(** A number grammar is unsigned when every input it accepts starts with a
    character other than the negative marker. *)
Definition unsigned (g : Fst) : Prop :=
  forall i o, rewrites g i o -> exists c r, i = String c r /\ c <> "-"%char.

(** The sign field an input calls for: the negative field when it starts
    with the marker, nothing otherwise. *)
Definition sign_field (i : string) : string :=
  if Str.starts_with "-" i then "negative: " ++ quoted "true" ++ " " else "".

(** ** More names for the statements *)

(** A transducer with one output at most for each input. *)
Definition functional (g : Fst) : Prop :=
  forall i o o', rewrites g i o -> rewrites g i o' -> o = o'.

(** A string with no space character in it. *)
Definition no_space (s : string) : bool :=
  all_chars (fun c => negb (Ascii.eqb c " ")) s.

(** The same setting with another cardinal graph. *)
Definition with_graph (Env : Setting) (g : Fst) : Setting :=
  {| is_alpha := is_alpha; white_space := white_space;
     NEMO_NON_BREAKING_SPACE := NEMO_NON_BREAKING_SPACE;
     SINGULAR_TO_PLURAL := SINGULAR_TO_PLURAL; measurements := measurements;
     cardinal := {| graph := g; range_graph := range_graph cardinal |};
     decimal := decimal; deterministic := deterministic |}.

(** ** A small instance of the collaborators

    Enough of the cardinal and decimal grammars, of the lexicon and of the
    plural rule to run the tagger on the inputs of the docstring. *)

Module Sample.

Definition alpha (c : ascii) : bool :=
  let n := nat_of_ascii c in
  ((65 <=? n)%nat && (n <=? 90)%nat) || ((97 <=? n)%nat && (n <=? 122)%nat).

Definition nbsp : string := String "194" (String "160" EmptyString).

Definition spaces : list string :=
  [" "; String "009" EmptyString; String "010" EmptyString;
   String "013" EmptyString; nbsp].

(** The regular plural: an s at the end. *)
Definition plural_s : Fst := (NEMO_SIGMA + pynutil.insert "s")%fst.

Definition lexicon : list (string * string) :=
  [("kg", "kilogram"); ("h", "hour"); ("hour", "hour"); ("miles", "mile");
   ("m", "meter"); ("sq ft", "square foot"); ("km", "kilometer");
   ("km/h", "kilometer per hour")].

Definition cardinals : CardinalFst :=
  {| graph := pynini.string_file
                [("1", "one"); ("2", "two"); ("5", "five"); ("12", "twelve")];
     range_graph := pynini.string_file [("2-5", "two to five")] |}.

Definition decimals : DecimalFst :=
  {| final_graph_wo_negative := pynini.string_file
       [(".5", "fractional_part: " ++ quoted "five");
        ("1.5", "integer_part: " ++ quoted "one" ++ " fractional_part: "
                ++ quoted "five")] |}.

Definition setting (det : bool) : Setting :=
  {| is_alpha := alpha; white_space := spaces;
     NEMO_NON_BREAKING_SPACE := nbsp; SINGULAR_TO_PLURAL := plural_s;
     measurements := lexicon; cardinal := cardinals; decimal := decimals;
     deterministic := det |}.

(** The tagger over these collaborators. *)
Definition tagger (det : bool) : Fst := MeasureFst (Env := setting det).

End Sample.

(** * The proofs *)

(** ** Strings *)

Module StrFacts.

Lemma app_nil_r (s : string) : s ++ "" = s.
Proof. induction s as [|c s IH]; simpl; [reflexivity | now rewrite IH]. Qed.

Lemma app_assoc (a b c : string) : (a ++ b) ++ c = a ++ b ++ c.
Proof. induction a as [|x a IH]; simpl; [reflexivity | now rewrite IH]. Qed.

Lemma app_eq_nil (a b : string) : a ++ b = "" -> a = "" /\ b = "".
Proof. destruct a; simpl; [auto | discriminate]. Qed.

Lemma app_inv_head (a b c : string) : a ++ b = a ++ c -> b = c.
Proof.
  induction a as [|x a IH]; simpl; intros H; [exact H|].
  injection H as H. auto.
Qed.

Lemma length_app (a b : string) : length (a ++ b) = length a + length b.
Proof. induction a as [|x a IH]; simpl; [reflexivity | now rewrite IH]. Qed.



Lemma starts_with_inv (p s : string) :
  Str.starts_with p s = true -> exists r, s = p ++ r.
Proof.
  revert s. induction p as [|c p IH]; intros s H.
  - exists s. reflexivity.
  - destruct s as [|d s]; simpl in H; [discriminate|].
    apply andb_true_iff in H as [E H]. apply Ascii.eqb_eq in E. subst d.
    destruct (IH _ H) as [r ->]. exists r. reflexivity.
Qed.

Lemma in_splits (s a b : string) : In (a, b) (Str.splits s) <-> s = a ++ b.
Proof.
  revert a b. induction s as [|c s IH]; intros a b; simpl.
  - split.
    + intros [H|[]]. now inversion H.
    + intros H. symmetry in H. apply app_eq_nil in H as [-> ->]. now left.
  - split.
    + intros [H|H].
      * now inversion H.
      * apply in_map_iff in H as [[x y] [E H]]. inversion E; subst.
        apply IH in H. simpl. now rewrite H.
    + intros H. destruct a as [|d a]; simpl in H.
      * left. now rewrite H.
      * right. inversion H; subst. apply in_map_iff.
        exists (a, b). split; [reflexivity|]. now apply IH.
Qed.

End StrFacts.

(** ** The relation each combinator computes *)

Section Denotation.

Implicit Types (f g : Fst) (i o a b s : string).

Lemma rewrites_cross a b i o :
  rewrites (pynini.cross a b) i o <-> i = a /\ o = b.
Proof.
  unfold rewrites, pynini.cross.
  destruct (String.eqb_spec i a) as [->|N]; simpl; intuition congruence.
Qed.

Lemma rewrites_accep a i o :
  rewrites (pynini.accep a) i o <-> i = a /\ o = a.
Proof. apply rewrites_cross. Qed.

Lemma rewrites_insert s i o :
  rewrites (pynutil.insert s) i o <-> i = "" /\ o = s.
Proof. apply rewrites_cross. Qed.

Lemma rewrites_delete f i o :
  rewrites (pynutil.delete f) i o <-> o = "" /\ exists o', rewrites f i o'.
Proof.
  unfold rewrites, pynutil.delete. rewrite in_map_iff. split.
  - intros [x [E H]]. split; [now symmetry|now exists x].
  - intros [-> [x H]]. now exists x.
Qed.

Lemma rewrites_concat f g i o :
  rewrites (f + g) i o <->
  exists i1 i2 o1 o2,
    i = i1 ++ i2 /\ o = o1 ++ o2 /\ rewrites f i1 o1 /\ rewrites g i2 o2.
Proof.
  unfold rewrites, pynini.concat. rewrite in_flat_map. split.
  - intros [[i1 i2] [Hs H]]. apply StrFacts.in_splits in Hs.
    apply in_flat_map in H as [o1 [H1 H]].
    apply in_map_iff in H as [o2 [E H2]].
    exists i1, i2, o1, o2. simpl in *. auto.
  - intros (i1 & i2 & o1 & o2 & -> & -> & H1 & H2).
    exists (i1, i2). split; [now apply StrFacts.in_splits|].
    apply in_flat_map. exists o1. split; [exact H1|].
    apply in_map_iff. now exists o2.
Qed.

Lemma rewrites_union f g i o :
  rewrites (f <|> g) i o <-> rewrites f i o \/ rewrites g i o.
Proof. unfold rewrites, pynini.union. apply in_app_iff. Qed.

Lemma rewrites_compose f g i o :
  rewrites (f @@ g) i o <-> exists m, rewrites f i m /\ rewrites g m o.
Proof. unfold rewrites, pynini.compose. apply in_flat_map. Qed.

Lemma rewrites_difference f a i o :
  rewrites (pynini.difference f a) i o <-> i <> a /\ rewrites f i o.
Proof.
  unfold rewrites, pynini.difference.
  destruct (String.eqb_spec i a) as [->|N]; simpl; intuition congruence.
Qed.

Lemma rewrites_closure_0_1 f i o :
  rewrites (pynini.closure_0_1 f) i o <-> (i = "" /\ o = "") \/ rewrites f i o.
Proof.
  unfold pynini.closure_0_1. rewrite rewrites_union, rewrites_accep. tauto.
Qed.

Lemma rewrites_union_of (l : list string) i o :
  rewrites (pynini.union_of l) i o <-> In i l /\ o = i.
Proof.
  unfold rewrites, pynini.union_of.
  destruct (existsb (String.eqb i) l) eqn:E; simpl.
  - apply existsb_exists in E as [x [Hx E]]. apply String.eqb_eq in E. subst x.
    intuition congruence.
  - split; [tauto|]. intros [H _]. exfalso.
    assert (existsb (String.eqb i) l = true); [|congruence].
    apply existsb_exists. exists i. split; [exact H|apply String.eqb_refl].
Qed.

Lemma rewrites_string_file (t : list (string * string)) i o :
  rewrites (pynini.string_file t) i o <-> In (i, o) t.
Proof.
  unfold rewrites, pynini.string_file. rewrite in_map_iff. split.
  - intros [[k v] [E H]]. apply filter_In in H as [H K]. simpl in *.
    apply String.eqb_eq in K. now subst.
  - intros H. exists (i, o). split; [reflexivity|].
    apply filter_In. split; [exact H|apply String.eqb_refl].
Qed.

Lemma rewrites_char_class (p : ascii -> bool) i o :
  rewrites (char_class p) i o <->
  exists c, i = String c EmptyString /\ p c = true /\ o = i.
Proof.
  unfold rewrites, char_class. split.
  - destruct i as [|c [|d r]]; simpl; try tauto.
    destruct (p c) eqn:E; simpl; [|tauto].
    intros [<-|[]]. now exists c.
  - intros (c & -> & H & ->). rewrite H. now left.
Qed.

Lemma rewrites_NEMO_SIGMA i o : rewrites NEMO_SIGMA i o <-> o = i.
Proof. unfold rewrites, NEMO_SIGMA. simpl. intuition. Qed.

Lemma star_fuel_sound f n : forall i o,
  In o (pynini.star_fuel n f i) -> star_rel f i o.
Proof.
  induction n as [|n IH]; intros i o H; simpl in H;
    apply in_app_iff in H as [H|H].
  - destruct (String.eqb_spec i ""); [|destruct H].
    destruct H as [<-|[]]. subst. constructor.
  - destruct H.
  - destruct (String.eqb_spec i ""); [|destruct H].
    destruct H as [<-|[]]. subst. constructor.
  - apply in_flat_map in H as [[i1 i2] [Hs H]]. apply StrFacts.in_splits in Hs.
    simpl in H. destruct i1 as [|c i1]; [destruct H|].
    apply in_flat_map in H as [o1 [H1 H]].
    apply in_map_iff in H as [o2 [<- H2]]. subst i.
    constructor; [exact H1|]. now apply IH.
Qed.

Lemma star_fuel_S f n i :
  pynini.star_fuel (S n) f i =
  ((if String.eqb i "" then [""] else []) ++
   flat_map (fun p =>
     match fst p with
     | EmptyString => []
     | _ => flat_map (fun o1 => map (String.append o1)
                                  (pynini.star_fuel n f (snd p))) (f (fst p))
     end) (Str.splits i))%list.
Proof. reflexivity. Qed.

Lemma star_fuel_complete f :
  (forall o, rewrites f "" o -> o = "") ->
  forall i o, star_rel f i o ->
  forall n, length i <= n -> In o (pynini.star_fuel n f i).
Proof.
  intros Heps i o H. induction H as [|i1 i2 o1 o2 H1 H2 IH]; intros n Hn.
  - destruct n; simpl; now left.
  - destruct i1 as [|c i1].
    + apply Heps in H1. subst o1. simpl. now apply IH.
    + destruct n as [|n]; [simpl in Hn; lia|].
      rewrite star_fuel_S. apply in_app_iff. right.
      apply in_flat_map. exists (String c i1, i2).
      split; [now apply StrFacts.in_splits|]. cbn [fst snd].
      apply in_flat_map. exists o1. split; [exact H1|].
      apply in_map_iff. exists o2. split; [reflexivity|].
      apply IH. rewrite StrFacts.length_app in Hn. simpl in Hn. lia.
Qed.

Lemma rewrites_star f i o :
  (forall o', rewrites f "" o' -> o' = "") ->
  rewrites (pynini.star f) i o <-> star_rel f i o.
Proof.
  intros Heps. unfold rewrites, pynini.star. split.
  - apply star_fuel_sound.
  - intros H. now apply star_fuel_complete.
Qed.

End Denotation.

(** Introduction forms, for building an accepting path piece by piece. *)
Lemma concat_intro (f g : Fst) i1 i2 o1 o2 i o :
  rewrites f i1 o1 -> rewrites g i2 o2 ->
  i = i1 ++ i2 -> o = o1 ++ o2 -> rewrites (f + g) i o.
Proof. intros H1 H2 -> ->. apply rewrites_concat. now exists i1, i2, o1, o2. Qed.

Lemma rewrites_eq (f : Fst) i o i' o' :
  rewrites f i o -> i' = i -> o' = o -> rewrites f i' o'.
Proof. now intros H -> ->. Qed.

Lemma insert_intro s : rewrites (pynutil.insert s) "" s.
Proof. now apply rewrites_insert. Qed.

Lemma cross_intro a b : rewrites (pynini.cross a b) a b.
Proof. now apply rewrites_cross. Qed.

Lemma star_union_of (l : list string) i o :
  star_rel (pynini.union_of l) i o <-> o = i /\ run_of l i.
Proof.
  split.
  - induction 1 as [|i1 i2 o1 o2 H1 H2 [-> IH]].
    + split; [reflexivity|constructor].
    + apply rewrites_union_of in H1 as [H1 ->]. split; [reflexivity|].
      now constructor.
  - intros [-> H]. induction H as [|w r Hw H IH]; [constructor|].
    constructor; [|exact IH]. now apply rewrites_union_of.
Qed.

Lemma star_char_class (p : ascii -> bool) i o :
  star_rel (char_class p) i o <-> o = i /\ all_chars p i = true.
Proof.
  split.
  - induction 1 as [|i1 i2 o1 o2 H1 H2 [-> IH]]; [now split|].
    apply rewrites_char_class in H1 as (c & -> & Hc & ->).
    split; [reflexivity|]. simpl. now rewrite Hc.
  - intros [-> H]. induction i as [|c i IH]; [constructor|].
    simpl in H. apply andb_true_iff in H as [Hc H].
    change (String c i) with (String c "" ++ i).
    constructor; [|now apply IH]. apply rewrites_char_class. now exists c.
Qed.

Lemma char_class_eps (p : ascii -> bool) o :
  rewrites (char_class p) "" o -> o = "".
Proof. intros H. apply rewrites_char_class in H as (c & E & _). discriminate. Qed.

Lemma rewrites_closure_1_char_class (p : ascii -> bool) i o :
  rewrites (pynini.closure_1 (char_class p)) i o <->
  o = i /\ i <> "" /\ all_chars p i = true.
Proof.
  unfold pynini.closure_1. rewrite rewrites_concat. split.
  - intros (i1 & i2 & o1 & o2 & -> & -> & H1 & H2).
    apply rewrites_char_class in H1 as (c & -> & Hc & ->).
    apply (rewrites_star _ _ _ (char_class_eps p)) in H2.
    apply star_char_class in H2 as [-> H2].
    split; [reflexivity|]. split; [discriminate|]. simpl. now rewrite Hc.
  - intros (-> & Hn & H). destruct i as [|c i]; [congruence|].
    simpl in H. apply andb_true_iff in H as [Hc Hi].
    exists (String c ""), i, (String c ""), i.
    split; [reflexivity|]. split; [reflexivity|]. split.
    + apply rewrites_char_class. now exists c.
    + apply (rewrites_star _ _ _ (char_class_eps p)). now apply star_char_class.
Qed.

(** ** The relation each piece of the grammar computes *)

Section MeasureFacts.

Context {Env : Setting}.

Lemma delete_space_spec i o :
  rewrites delete_space i o <-> o = "" /\ whitespace i.
Proof.
  unfold delete_space, pynini.closure, whitespace.
  rewrite rewrites_delete.
  assert (E : forall o', rewrites NEMO_WHITE_SPACE "" o' -> o' = "").
  { intros o' H. now apply rewrites_union_of in H as [_ ->]. }
  split.
  - intros [-> [o' H]]. apply (rewrites_star _ _ _ E) in H.
    apply star_union_of in H as [_ H]. now split.
  - intros [-> H]. split; [reflexivity|]. exists i.
    apply (rewrites_star _ _ _ E). now apply star_union_of.
Qed.

Lemma delete_space_nil : rewrites delete_space "" "".
Proof. apply delete_space_spec. split; [reflexivity|constructor]. Qed.

Lemma alpha_spec i o :
  rewrites (pynini.closure_1 NEMO_ALPHA) i o <-> o = i /\ alphabetic i.
Proof. apply rewrites_closure_1_char_class. Qed.

Lemma convert_space_spec f i o :
  rewrites (convert_space f) i o <-> exists m, rewrites f i m /\ o = joined m.
Proof.
  unfold convert_space. rewrite rewrites_compose.
  split; intros [m [H1 H2]]; exists m; (split; [exact H1|]).
  - destruct H2 as [<-|[]]. reflexivity.
  - left. now symmetry.
Qed.

Lemma graph_unit_spec i o :
  rewrites graph_unit i o <->
  exists name, In (i, name) measurements /\ o = joined name.
Proof.
  unfold graph_unit, graph_unit_0. rewrite convert_space_spec.
  split; intros [m [H ->]]; exists m; (split; [|reflexivity]);
    now apply rewrites_string_file.
Qed.

Lemma graph_unit_plural_spec i o :
  rewrites graph_unit_plural i o <->
  exists name pl,
    In (i, name) measurements /\ rewrites SINGULAR_TO_PLURAL name pl /\
    o = joined pl.
Proof.
  unfold graph_unit_plural, graph_unit_0. rewrite convert_space_spec. split.
  - intros [pl [H ->]]. apply rewrites_compose in H as [name [H1 H2]].
    apply rewrites_string_file in H1. now exists name, pl.
  - intros (name & pl & H1 & H2 & ->). exists pl. split; [|reflexivity].
    apply rewrites_compose. exists name. split; [|exact H2].
    now apply rewrites_string_file.
Qed.

Lemma optional_graph_negative_spec i o :
  rewrites optional_graph_negative i o <->
  (i = "" /\ o = "") \/ (i = "-" /\ o = "negative: " ++ quoted "true" ++ " ").
Proof.
  unfold optional_graph_negative.
  rewrite rewrites_closure_0_1, rewrites_concat. split.
  - intros [H|(i1 & i2 & o1 & o2 & -> & -> & H1 & H2)]; [now left|right].
    apply rewrites_insert in H1 as [-> ->].
    apply rewrites_cross in H2 as [-> ->]. now split.
  - intros [H|[-> ->]]; [now left|right].
    exists "", "-", "negative: ", (dq ++ "true" ++ dq ++ " ").
    split; [reflexivity|]. split; [reflexivity|].
    split; [apply insert_intro|apply cross_intro].
Qed.

Lemma delete_space_intro ws : whitespace ws -> rewrites delete_space ws "".
Proof. intros H. now apply delete_space_spec. Qed.

(** Take a path of a concatenation apart, down to its pieces. *)
Ltac fst_inv :=
  repeat match goal with
  | H : rewrites (pynini.concat _ _) _ _ |- _ =>
      apply rewrites_concat in H;
      destruct H as (? & ? & ? & ? & ? & ? & ? & ?)
  | H : rewrites (pynutil.insert _) _ _ |- _ =>
      apply rewrites_insert in H; destruct H as [? ?]
  | H : rewrites (pynini.cross _ _) _ _ |- _ =>
      apply rewrites_cross in H; destruct H as [? ?]
  | H : rewrites delete_space _ _ |- _ =>
      apply delete_space_spec in H; destruct H as [? ?]
  | H : rewrites (pynini.closure_1 NEMO_ALPHA) _ _ |- _ =>
      apply alpha_spec in H; destruct H as [? ?]
  end; subst.

(** Split a conjunction written as one. *)
Ltac conjs := repeat match goal with |- _ /\ _ => split end.

(** Two strings that differ by bracketing and empty pieces only. *)
Ltac str_eq :=
  unfold quoted, dq; repeat rewrite StrFacts.app_assoc; simpl;
  repeat rewrite StrFacts.app_nil_r; reflexivity.

(** Put a path of a concatenation together from paths of its pieces, which
    are looked up among the hypotheses. *)
Ltac fst_leaf :=
  first [ apply insert_intro
        | apply cross_intro
        | apply delete_space_intro; eassumption
        | apply alpha_spec; split; [reflexivity | eassumption]
        | eassumption ].

Ltac fst_build :=
  lazymatch goal with
  | |- rewrites (pynini.concat _ _) _ _ =>
      eapply concat_intro;
      [ fst_build | fst_build | first [reflexivity | str_eq] .. ]
  | |- _ => fst_leaf
  end.

Lemma graph_unit2_spec i o :
  rewrites graph_unit2 i o <->
  exists ws raw u,
    i = "/" ++ ws ++ raw /\ whitespace ws /\ rewrites graph_unit raw u /\
    o = "per" ++ NEMO_NON_BREAKING_SPACE ++ u.
Proof.
  unfold graph_unit2. split.
  - intros H. fst_inv.
    match goal with
    | W : whitespace ?ws, U : rewrites graph_unit ?raw ?u |- _ =>
        exists ws, raw, u
    end.
    conjs; try assumption; str_eq.
  - intros (ws & raw & u & -> & W & U & ->). fst_build.
Qed.

Lemma optional_graph_unit2_spec i o :
  rewrites optional_graph_unit2 i o <->
  (i = "" /\ o = "") \/
  exists ws rest p,
    i = ws ++ rest /\ whitespace ws /\ rewrites graph_unit2 rest p /\
    o = NEMO_NON_BREAKING_SPACE ++ p.
Proof.
  unfold optional_graph_unit2. rewrite rewrites_closure_0_1. split.
  - intros [H|H]; [now left|right]. fst_inv.
    match goal with
    | W : whitespace ?ws, U : rewrites graph_unit2 ?rest ?u |- _ =>
        exists ws, rest, u
    end.
    conjs; try assumption; str_eq.
  - intros [H|(ws & rest & u & -> & W & U & ->)]; [now left|right]. fst_build.
Qed.

Lemma unit_plural_spec i o :
  rewrites unit_plural i o <->
  exists u, rewrites units_plural i u /\ o = "units: " ++ quoted u.
Proof.
  unfold unit_plural. fold units_plural. split.
  - intros H. fst_inv.
    match goal with U : rewrites units_plural ?r ?u |- _ => exists u end.
    split; [simpl; now rewrite StrFacts.app_nil_r | str_eq].
  - intros (u & U & ->). fst_build.
Qed.

Lemma unit_singular_spec i o :
  rewrites unit_singular i o <->
  exists u, rewrites units_singular i u /\ o = "units: " ++ quoted u.
Proof.
  unfold unit_singular. fold units_singular. split.
  - intros H. fst_inv.
    match goal with U : rewrites units_singular ?r ?u |- _ => exists u end.
    split; [simpl; now rewrite StrFacts.app_nil_r | str_eq].
  - intros (u & U & ->). fst_build.
Qed.

(** *** What the six branches compute *)

Lemma subgraph_decimal_spec i o :
  rewrites subgraph_decimal i o <->
  exists s so d w ws r u,
    i = s ++ d ++ ws ++ r /\
    rewrites optional_graph_negative s so /\
    rewrites (final_graph_wo_negative decimal) d w /\
    whitespace ws /\ rewrites unit_plural r u /\
    o = "decimal { " ++ so ++ w ++ " } " ++ u.
Proof.
  unfold subgraph_decimal. split.
  - intros H. fst_inv.
    match goal with
    | S : rewrites optional_graph_negative ?s ?so,
      D : rewrites (final_graph_wo_negative decimal) ?d ?w,
      W : whitespace ?ws, U : rewrites unit_plural ?r ?u |- _ =>
        exists s, so, d, w, ws, r, u
    end.
    conjs; try assumption; str_eq.
  - intros (s0 & so & d & w & ws & r & u & -> & S & D & W & U & ->). fst_build.
Qed.

Lemma subgraph_cardinal_plural_spec i o :
  rewrites subgraph_cardinal_plural i o <->
  exists s so n w ws r u,
    i = s ++ n ++ ws ++ r /\
    rewrites optional_graph_negative s so /\
    n <> "1" /\ rewrites cardinal_graph n w /\
    whitespace ws /\ rewrites unit_plural r u /\
    o = "cardinal { " ++ so ++ "integer: " ++ quoted w ++ " } " ++ u.
Proof.
  unfold subgraph_cardinal_plural. split.
  - intros H. fst_inv.
    match goal with
    | C : rewrites (_ @@ _) _ _ |- _ =>
        apply rewrites_compose in C; destruct C as (m & C1 & C2);
        apply rewrites_difference in C1; destruct C1 as [N C1];
        apply rewrites_NEMO_SIGMA in C1; subst m
    end.
    match goal with
    | S : rewrites optional_graph_negative ?s ?so,
      C : rewrites cardinal_graph ?n ?w,
      W : whitespace ?ws, U : rewrites unit_plural ?r ?u |- _ =>
        exists s, so, n, w, ws, r, u
    end.
    conjs; try assumption; str_eq.
  - intros (s0 & so & n & w & ws & r & u & -> & S & N & C & W & U & ->).
    assert (C' : rewrites (pynini.difference NEMO_SIGMA "1" @@ cardinal_graph) n w).
    { apply rewrites_compose. exists n. split; [|exact C].
      apply rewrites_difference. split; [exact N|]. now apply rewrites_NEMO_SIGMA. }
    clear C. fst_build.
Qed.

Lemma subgraph_cardinal_singular_spec i o :
  rewrites subgraph_cardinal_singular i o <->
  exists s so ws r u,
    i = s ++ "1" ++ ws ++ r /\
    rewrites optional_graph_negative s so /\
    whitespace ws /\ rewrites unit_singular r u /\
    o = "cardinal { " ++ so ++ "integer: " ++ quoted "one" ++ " } " ++ u.
Proof.
  unfold subgraph_cardinal_singular. split.
  - intros H. fst_inv.
    match goal with
    | S : rewrites optional_graph_negative ?s ?so,
      W : whitespace ?ws, U : rewrites unit_singular ?r ?u |- _ =>
        exists s, so, ws, r, u
    end.
    conjs; try assumption; str_eq.
  - intros (s0 & so & ws & r & u & -> & S & W & U & ->). fst_build.
Qed.

Lemma cardinal_dash_alpha_spec i o :
  rewrites cardinal_dash_alpha i o <->
  exists n w a,
    i = n ++ "-" ++ a /\ rewrites cardinal_graph n w /\ alphabetic a /\
    o = "cardinal { integer: " ++ quoted w ++ " } units: " ++ quoted a.
Proof.
  unfold cardinal_dash_alpha. split.
  - intros H. fst_inv.
    match goal with
    | C : rewrites cardinal_graph ?n ?w, A : alphabetic ?a |- _ =>
        exists n, w, a
    end.
    conjs; try assumption; str_eq.
  - intros (n & w & a & -> & C & A & ->). fst_build.
Qed.

Lemma alpha_dash_cardinal_spec i o :
  rewrites alpha_dash_cardinal i o <->
  exists a n w,
    i = a ++ "-" ++ n /\ alphabetic a /\ rewrites cardinal_graph n w /\
    o = "units: " ++ quoted a ++ " cardinal { integer: " ++ quoted w
        ++ " } preserve_order: true".
Proof.
  unfold alpha_dash_cardinal. split.
  - intros H. fst_inv.
    match goal with
    | C : rewrites cardinal_graph ?n ?w, A : alphabetic ?a |- _ =>
        exists a, n, w
    end.
    conjs; try assumption; str_eq.
  - intros (a & n & w & -> & A & C & ->). fst_build.
Qed.

Lemma decimal_dash_alpha_spec i o :
  rewrites decimal_dash_alpha i o <->
  exists d w a,
    i = d ++ "-" ++ a /\
    rewrites (final_graph_wo_negative decimal) d w /\ alphabetic a /\
    o = "decimal { " ++ w ++ " } units: " ++ quoted a.
Proof.
  unfold decimal_dash_alpha. split.
  - intros H. fst_inv.
    match goal with
    | C : rewrites (final_graph_wo_negative decimal) ?n ?w,
      A : alphabetic ?a |- _ =>
        exists n, w, a
    end.
    conjs; try assumption; str_eq.
  - intros (n & w & a & -> & C & A & ->). fst_build.
Qed.

Lemma alpha_dash_decimal_spec i o :
  rewrites alpha_dash_decimal i o <->
  exists a d w,
    i = a ++ "-" ++ d /\ alphabetic a /\
    rewrites (final_graph_wo_negative decimal) d w /\
    o = "units: " ++ quoted a ++ " decimal { " ++ w
        ++ " } preserve_order: true".
Proof.
  unfold alpha_dash_decimal. split.
  - intros H. fst_inv.
    match goal with
    | C : rewrites (final_graph_wo_negative decimal) ?n ?w,
      A : alphabetic ?a |- _ =>
        exists a, n, w
    end.
    conjs; try assumption; str_eq.
  - intros (a & n & w & -> & A & C & ->). fst_build.
Qed.

(** *** The union of the branches and the envelope *)

Lemma final_graph_spec i o :
  rewrites final_graph i o <->
  rewrites subgraph_decimal i o \/ rewrites subgraph_cardinal i o \/
  rewrites cardinal_dash_alpha i o \/ rewrites alpha_dash_cardinal i o \/
  rewrites decimal_dash_alpha i o \/ rewrites alpha_dash_decimal i o.
Proof. unfold final_graph. rewrite !rewrites_union. tauto. Qed.

Lemma subgraph_cardinal_spec i o :
  rewrites subgraph_cardinal i o <->
  rewrites subgraph_cardinal_plural i o \/ rewrites subgraph_cardinal_singular i o.
Proof. unfold subgraph_cardinal. apply rewrites_union. Qed.

Lemma MeasureFst_spec i o :
  rewrites MeasureFst i o <->
  exists a, rewrites final_graph i a /\ o = "measure { " ++ a ++ " }".
Proof.
  unfold MeasureFst, optimize, add_tokens. split.
  - intros H. fst_inv.
    match goal with A : rewrites final_graph ?r ?a |- _ => exists a end.
    split; [simpl; now rewrite StrFacts.app_nil_r | str_eq].
  - intros (a & A & ->). fst_build.
Qed.

Lemma MeasureFst_intro i a :
  rewrites final_graph i a -> rewrites MeasureFst i ("measure { " ++ a ++ " }").
Proof. intros H. apply MeasureFst_spec. now exists a. Qed.

(** The plain branches on an input with no sign: the number, a run of
    whitespace, the unit. *)
Lemma plain_cardinal_plural n w ws r u :
  n <> "1" -> rewrites cardinal_graph n w -> whitespace ws ->
  rewrites units_plural r u ->
  rewrites subgraph_cardinal (n ++ ws ++ r)
    ("cardinal { integer: " ++ quoted w ++ " } units: " ++ quoted u).
Proof.
  intros N C W U. apply subgraph_cardinal_spec. left.
  apply subgraph_cardinal_plural_spec.
  exists "", "", n, w, ws, r, ("units: " ++ quoted u).
  conjs; try assumption; try reflexivity.
  - apply optional_graph_negative_spec. now left.
  - apply unit_plural_spec. now exists u.
Qed.

Lemma plain_cardinal_singular ws r u :
  whitespace ws -> rewrites units_singular r u ->
  rewrites subgraph_cardinal ("1" ++ ws ++ r)
    ("cardinal { integer: " ++ quoted "one" ++ " } units: " ++ quoted u).
Proof.
  intros W U. apply subgraph_cardinal_spec. right.
  apply subgraph_cardinal_singular_spec.
  exists "", "", ws, r, ("units: " ++ quoted u).
  conjs; try assumption; try reflexivity.
  - apply optional_graph_negative_spec. now left.
  - apply unit_singular_spec. now exists u.
Qed.

Lemma plain_decimal d w ws r u :
  rewrites (final_graph_wo_negative decimal) d w -> whitespace ws ->
  rewrites units_plural r u ->
  rewrites subgraph_decimal (d ++ ws ++ r)
    ("decimal { " ++ w ++ " } units: " ++ quoted u).
Proof.
  intros D W U. apply subgraph_decimal_spec.
  exists "", "", d, w, ws, r, ("units: " ++ quoted u).
  conjs; try assumption; try reflexivity.
  - apply optional_graph_negative_spec. now left.
  - apply unit_plural_spec. now exists u.
Qed.

(** The units a lexicon entry gives, alone and before a per-unit suffix. *)
Lemma units_plural_lexicon raw name pl :
  In (raw, name) measurements -> rewrites SINGULAR_TO_PLURAL name pl ->
  rewrites units_plural raw (joined pl).
Proof.
  intros L P. unfold units_plural. apply rewrites_union. left.
  apply concat_intro with (i1 := raw) (o1 := joined pl) (i2 := "") (o2 := "").
  - apply graph_unit_plural_spec. now exists name, pl.
  - apply optional_graph_unit2_spec. now left.
  - now rewrite StrFacts.app_nil_r.
  - now rewrite StrFacts.app_nil_r.
Qed.

Lemma units_singular_lexicon raw name :
  In (raw, name) measurements -> rewrites units_singular raw (joined name).
Proof.
  intros L. unfold units_singular. apply rewrites_union. left.
  apply concat_intro with (i1 := raw) (o1 := joined name) (i2 := "") (o2 := "").
  - apply graph_unit_spec. now exists name.
  - apply optional_graph_unit2_spec. now left.
  - now rewrite StrFacts.app_nil_r.
  - now rewrite StrFacts.app_nil_r.
Qed.

Lemma graph_unit2_lexicon ws raw name :
  whitespace ws -> In (raw, name) measurements ->
  rewrites graph_unit2 ("/" ++ ws ++ raw)
    ("per" ++ NEMO_NON_BREAKING_SPACE ++ joined name).
Proof.
  intros W L. apply graph_unit2_spec. exists ws, raw, (joined name).
  conjs; try assumption; try reflexivity. apply graph_unit_spec. now exists name.
Qed.

Lemma whitespace_nil : whitespace "".
Proof. constructor. Qed.

(** *** Properties of the tagger *)

(** C1.  Unit-form selection.  For a unit of the lexicon: after a cardinal
    whose text is not the literal 1 the units field holds the plural of the
    unit; after the literal 1 it holds the singular and the magnitude is the
    word one; the literal 1 is outside the domain of the cardinal grammar of
    the plural branch; after a decimal the units field holds the plural.
    Conversely every path of the plain cardinal rule either reads a number
    other than 1 and takes its units from the plural rule, or reads 1, writes
    one and takes its units from the singular rule, and every path of the
    plain decimal rule takes its units from the plural rule. *)
Theorem unit_form_selection raw name :
  In (raw, name) measurements ->
  (forall n w pl,
      n <> "1" -> rewrites cardinal_graph n w ->
      rewrites SINGULAR_TO_PLURAL name pl ->
      rewrites MeasureFst (n ++ raw)
        ("measure { cardinal { integer: " ++ quoted w ++ " } units: "
         ++ quoted (joined pl) ++ " }")) /\
  rewrites MeasureFst ("1" ++ raw)
    ("measure { cardinal { integer: " ++ quoted "one" ++ " } units: "
     ++ quoted (joined name) ++ " }") /\
  (forall o,
      ~ rewrites (pynini.difference NEMO_SIGMA "1" @@ cardinal_graph) "1" o) /\
  (forall d w pl,
      rewrites (final_graph_wo_negative decimal) d w ->
      rewrites SINGULAR_TO_PLURAL name pl ->
      rewrites MeasureFst (d ++ raw)
        ("measure { decimal { " ++ w ++ " } units: "
         ++ quoted (joined pl) ++ " }")) /\
  (forall i o,
      rewrites subgraph_cardinal i o ->
      exists s so n w ws r u,
        i = s ++ n ++ ws ++ r /\ rewrites optional_graph_negative s so /\
        whitespace ws /\
        o = "cardinal { " ++ so ++ "integer: " ++ quoted w ++ " } units: "
            ++ quoted u /\
        ((n <> "1" /\ rewrites cardinal_graph n w /\ rewrites units_plural r u)
         \/ (n = "1" /\ w = "one" /\ rewrites units_singular r u))) /\
  (forall i o,
      rewrites subgraph_decimal i o ->
      exists s so d w ws r u,
        i = s ++ d ++ ws ++ r /\ rewrites optional_graph_negative s so /\
        rewrites (final_graph_wo_negative decimal) d w /\ whitespace ws /\
        o = "decimal { " ++ so ++ w ++ " } units: " ++ quoted u /\
        rewrites units_plural r u).
Proof.
  intros L. conjs.
  - intros n w pl N C P.
    eapply rewrites_eq;
      [ apply MeasureFst_intro, final_graph_spec; right; left;
        apply plain_cardinal_plural with (ws := "");
        eauto using whitespace_nil, units_plural_lexicon
      | reflexivity | str_eq ].
  - eapply rewrites_eq;
      [ apply MeasureFst_intro, final_graph_spec; right; left;
        apply plain_cardinal_singular with (ws := "");
        eauto using whitespace_nil, units_singular_lexicon
      | reflexivity | str_eq ].
  - intros o H. apply rewrites_compose in H as (m & H & _).
    apply rewrites_difference in H as [N _]. now apply N.
  - intros d w pl D P.
    eapply rewrites_eq;
      [ apply MeasureFst_intro, final_graph_spec; left;
        apply plain_decimal with (ws := "");
        eauto using whitespace_nil, units_plural_lexicon
      | reflexivity | str_eq ].
  - intros i o H. apply subgraph_cardinal_spec in H as [H|H].
    + apply subgraph_cardinal_plural_spec in H
        as (s0 & so & n & w & ws & r & u & -> & S & N & C & W & U & ->).
      apply unit_plural_spec in U as (u' & U & ->).
      exists s0, so, n, w, ws, r, u'. conjs; auto; try str_eq.
    + apply subgraph_cardinal_singular_spec in H
        as (s0 & so & ws & r & u & -> & S & W & U & ->).
      apply unit_singular_spec in U as (u' & U & ->).
      exists s0, so, "1", "one", ws, r, u'. conjs; auto; try str_eq.
  - intros i o H. apply subgraph_decimal_spec in H
      as (s0 & so & d & w & ws & r & u & -> & S & D & W & U & ->).
    apply unit_plural_spec in U as (u' & U & ->).
    exists s0, so, d, w, ws, r, u'. conjs; auto; try str_eq.
Qed.



(** C4.  Dash-joined shapes.  For an alphabetic unit and a number of the
    cardinal or the decimal grammar: number, dash, unit is rewritten to the
    number field and then the units field, with the unit as it stands in the
    input, no dash and no preserve_order field; unit, dash, number is
    rewritten to the units field, then the number field, then
    preserve_order: true.  Each of the four dash rules has these paths
    only. *)
Theorem dash_joined_shapes a :
  alphabetic a ->
  (forall n w,
      rewrites cardinal_graph n w ->
      rewrites MeasureFst (n ++ "-" ++ a)
        ("measure { cardinal { integer: " ++ quoted w ++ " } units: "
         ++ quoted a ++ " }")) /\
  (forall d w,
      rewrites (final_graph_wo_negative decimal) d w ->
      rewrites MeasureFst (d ++ "-" ++ a)
        ("measure { decimal { " ++ w ++ " } units: " ++ quoted a ++ " }")) /\
  (forall n w,
      rewrites cardinal_graph n w ->
      rewrites MeasureFst (a ++ "-" ++ n)
        ("measure { units: " ++ quoted a ++ " cardinal { integer: "
         ++ quoted w ++ " } preserve_order: true }")) /\
  (forall d w,
      rewrites (final_graph_wo_negative decimal) d w ->
      rewrites MeasureFst (a ++ "-" ++ d)
        ("measure { units: " ++ quoted a ++ " decimal { " ++ w
         ++ " } preserve_order: true }")) /\
  (forall i o,
      rewrites cardinal_dash_alpha i o ->
      exists n w a',
        i = n ++ "-" ++ a' /\ rewrites cardinal_graph n w /\ alphabetic a' /\
        o = "cardinal { integer: " ++ quoted w ++ " } units: " ++ quoted a') /\
  (forall i o,
      rewrites decimal_dash_alpha i o ->
      exists d w a',
        i = d ++ "-" ++ a' /\
        rewrites (final_graph_wo_negative decimal) d w /\ alphabetic a' /\
        o = "decimal { " ++ w ++ " } units: " ++ quoted a') /\
  (forall i o,
      rewrites alpha_dash_cardinal i o ->
      exists a' n w,
        i = a' ++ "-" ++ n /\ alphabetic a' /\ rewrites cardinal_graph n w /\
        o = "units: " ++ quoted a' ++ " cardinal { integer: " ++ quoted w
            ++ " } preserve_order: true") /\
  (forall i o,
      rewrites alpha_dash_decimal i o ->
      exists a' d w,
        i = a' ++ "-" ++ d /\ alphabetic a' /\
        rewrites (final_graph_wo_negative decimal) d w /\
        o = "units: " ++ quoted a' ++ " decimal { " ++ w
            ++ " } preserve_order: true").
Proof.
  intros A. conjs.
  - intros n w C.
    eapply rewrites_eq;
      [ apply MeasureFst_intro, final_graph_spec; right; right; left;
        apply cardinal_dash_alpha_spec; exists n, w, a; conjs; eauto
      | reflexivity | str_eq ].
  - intros d w D.
    eapply rewrites_eq;
      [ apply MeasureFst_intro, final_graph_spec; do 4 right; left;
        apply decimal_dash_alpha_spec; exists d, w, a; conjs; eauto
      | reflexivity | str_eq ].
  - intros n w C.
    eapply rewrites_eq;
      [ apply MeasureFst_intro, final_graph_spec; do 3 right; left;
        apply alpha_dash_cardinal_spec; exists a, n, w; conjs; eauto
      | reflexivity | str_eq ].
  - intros d w D.
    eapply rewrites_eq;
      [ apply MeasureFst_intro, final_graph_spec; do 5 right;
        apply alpha_dash_decimal_spec; exists a, d, w; conjs; eauto
      | reflexivity | str_eq ].
  - intros i o H. now apply cardinal_dash_alpha_spec.
  - intros i o H. now apply decimal_dash_alpha_spec.
  - intros i o H. now apply alpha_dash_cardinal_spec.
  - intros i o H. now apply alpha_dash_decimal_spec.
Qed.

(** C5.  The per-unit suffix.  After the primary unit, whitespace, the
    division marker, whitespace and a unit of the lexicon are rewritten to
    the separator, the word per, the separator and the singular name of that
    unit: the units string ends in per, the separator and the name.  The
    suffix is optional and taken once at most: its rule has the empty path
    and these paths only. *)
Theorem per_unit_suffix raw2 name2 ws1 ws2 :
  In (raw2, name2) measurements -> whitespace ws1 -> whitespace ws2 ->
  let suffix :=
    NEMO_NON_BREAKING_SPACE ++ "per" ++ NEMO_NON_BREAKING_SPACE ++ joined name2 in
  rewrites optional_graph_unit2 (ws1 ++ "/" ++ ws2 ++ raw2) suffix /\
  (forall r u,
      rewrites graph_unit_plural r u ->
      rewrites units_plural (r ++ ws1 ++ "/" ++ ws2 ++ raw2) (u ++ suffix)) /\
  (forall r u,
      rewrites graph_unit r u ->
      rewrites units_singular (r ++ ws1 ++ "/" ++ ws2 ++ raw2) (u ++ suffix)) /\
  (forall n w raw name pl,
      n <> "1" -> rewrites cardinal_graph n w ->
      In (raw, name) measurements -> rewrites SINGULAR_TO_PLURAL name pl ->
      rewrites MeasureFst (n ++ raw ++ ws1 ++ "/" ++ ws2 ++ raw2)
        ("measure { cardinal { integer: " ++ quoted w ++ " } units: "
         ++ quoted (joined pl ++ suffix) ++ " }")) /\
  (forall i o,
      rewrites optional_graph_unit2 i o ->
      (i = "" /\ o = "") \/
      exists w1 w2 r n,
        whitespace w1 /\ whitespace w2 /\ In (r, n) measurements /\
        i = w1 ++ "/" ++ w2 ++ r /\
        o = NEMO_NON_BREAKING_SPACE ++ "per" ++ NEMO_NON_BREAKING_SPACE
            ++ joined n).
Proof.
  intros L W1 W2 suffix.
  assert (S : rewrites optional_graph_unit2 (ws1 ++ "/" ++ ws2 ++ raw2) suffix).
  { apply optional_graph_unit2_spec. right.
    exists ws1, ("/" ++ ws2 ++ raw2),
      ("per" ++ NEMO_NON_BREAKING_SPACE ++ joined name2).
    conjs; auto. now apply graph_unit2_lexicon. }
  assert (P : forall r u, rewrites graph_unit_plural r u ->
      rewrites units_plural (r ++ ws1 ++ "/" ++ ws2 ++ raw2) (u ++ suffix)).
  { intros r u U. apply rewrites_union. left.
    now apply concat_intro with r (ws1 ++ "/" ++ ws2 ++ raw2) u suffix. }
  conjs.
  - exact S.
  - exact P.
  - intros r u U. apply rewrites_union. left.
    now apply concat_intro with r (ws1 ++ "/" ++ ws2 ++ raw2) u suffix.
  - intros n w raw name pl N C L' Pl.
    eapply rewrites_eq;
      [ apply MeasureFst_intro, final_graph_spec; right; left;
        apply plain_cardinal_plural with (ws := ""); eauto using whitespace_nil;
        apply P, graph_unit_plural_spec; exists name, pl; conjs; eauto
      | reflexivity | str_eq ].
  - intros i o H. apply optional_graph_unit2_spec in H
      as [H|(w1 & rest & p & -> & Hw1 & G & ->)]; [now left|right].
    apply graph_unit2_spec in G as (w2 & r & u & -> & Hw2 & G & ->).
    apply graph_unit_spec in G as (n & G & ->).
    exists w1, w2, r, n. conjs; auto.
Qed.


Lemma joined_nonempty m :
  NEMO_NON_BREAKING_SPACE <> "" -> m <> "" -> joined m <> "".
Proof.
  intros Hn Hm. destruct m as [|c m]; [congruence|].
  unfold joined. simpl. destruct (Ascii.eqb c " "); [|discriminate].
  intros E. apply StrFacts.app_eq_nil in E as [E _]. congruence.
Qed.

Lemma graph_unit2_nonempty i o : rewrites graph_unit2 i o -> o <> "".
Proof.
  intros H. apply graph_unit2_spec in H as (ws & raw & u & _ & _ & _ & ->).
  discriminate.
Qed.

Lemma app_nonempty_l (a b : string) : a <> "" -> a ++ b <> "".
Proof. intros H E. apply StrFacts.app_eq_nil in E as [E _]. congruence. Qed.

(** C7.  The units field is never empty.  When the separator is not the
    empty string, the names of the lexicon are not empty and the plural rule
    writes no empty plural for them, every annotation of the tagger holds a
    units field whose content, written by the plural rule, the singular rule
    or the alphabetic span of a dash rule, is not empty. *)
Theorem units_never_empty i o :
  NEMO_NON_BREAKING_SPACE <> "" ->
  (forall raw name, In (raw, name) measurements -> name <> "") ->
  (forall raw name pl,
      In (raw, name) measurements -> rewrites SINGULAR_TO_PLURAL name pl ->
      pl <> "") ->
  rewrites MeasureFst i o ->
  exists pre r u post,
    (rewrites units_plural r u \/ rewrites units_singular r u \/
     rewrites (pynini.closure_1 NEMO_ALPHA) r u) /\
    o = pre ++ "units: " ++ quoted u ++ post /\
    u <> "".
Proof.
  intros Hn Hname Hpl H.
  assert (NP : forall r u, rewrites units_plural r u -> u <> "").
  { intros r u U. apply rewrites_union in U as [U|U];
      [|now apply graph_unit2_nonempty in U].
    apply rewrites_concat in U as (i1 & i2 & o1 & o2 & -> & -> & U1 & _).
    apply graph_unit_plural_spec in U1 as (name & pl & L & P & ->).
    apply app_nonempty_l, joined_nonempty; eauto. }
  assert (NS : forall r u, rewrites units_singular r u -> u <> "").
  { intros r u U. apply rewrites_union in U as [U|U];
      [|now apply graph_unit2_nonempty in U].
    apply rewrites_concat in U as (i1 & i2 & o1 & o2 & -> & -> & U1 & _).
    apply graph_unit_spec in U1 as (name & L & ->).
    apply app_nonempty_l, joined_nonempty; eauto. }
  assert (NA : forall a, alphabetic a ->
            rewrites (pynini.closure_1 NEMO_ALPHA) a a /\ a <> "").
  { intros a A. split; [now apply alpha_spec|apply A]. }
  apply MeasureFst_spec in H as (b & H & ->).
  apply final_graph_spec in H as [H|[H|[H|[H|[H|H]]]]].
  - apply subgraph_decimal_spec in H
      as (s0 & so & d & w & ws & r & u & -> & S & D & W & U & ->).
    apply unit_plural_spec in U as (u' & U & ->).
    exists ("measure { decimal { " ++ so ++ w ++ " } "), r, u', " }".
    conjs; eauto. str_eq.
  - apply subgraph_cardinal_spec in H as [H|H].
    + apply subgraph_cardinal_plural_spec in H
        as (s0 & so & n & w & ws & r & u & -> & S & N & C & W & U & ->).
      apply unit_plural_spec in U as (u' & U & ->).
      exists ("measure { cardinal { " ++ so ++ "integer: " ++ quoted w ++ " } "),
        r, u', " }".
      conjs; eauto. str_eq.
    + apply subgraph_cardinal_singular_spec in H
        as (s0 & so & ws & r & u & -> & S & W & U & ->).
      apply unit_singular_spec in U as (u' & U & ->).
      exists ("measure { cardinal { " ++ so ++ "integer: " ++ quoted "one" ++ " } "),
        r, u', " }".
      conjs; eauto. str_eq.
  - apply cardinal_dash_alpha_spec in H as (n & w & a & -> & C & A & ->).
    destruct (NA a A) as [Ha Hne].
    exists ("measure { cardinal { integer: " ++ quoted w ++ " } "), a, a, " }".
    conjs; eauto. str_eq.
  - apply alpha_dash_cardinal_spec in H as (a & n & w & -> & A & C & ->).
    destruct (NA a A) as [Ha Hne].
    exists "measure { ", a, a,
      (" cardinal { integer: " ++ quoted w ++ " } preserve_order: true }").
    conjs; eauto. str_eq.
  - apply decimal_dash_alpha_spec in H as (d & w & a & -> & D & A & ->).
    destruct (NA a A) as [Ha Hne].
    exists ("measure { decimal { " ++ w ++ " } "), a, a, " }".
    conjs; eauto. str_eq.
  - apply alpha_dash_decimal_spec in H as (a & d & w & -> & A & D & ->).
    destruct (NA a A) as [Ha Hne].
    exists "measure { ", a, a, (" decimal { " ++ w ++ " } preserve_order: true }").
    conjs; eauto. str_eq.
Qed.

(** C9.  A per-unit suffix as the whole units field.  In the plural and in
    the singular unit rule the division marker and a unit of the lexicon,
    with no primary unit in front, are rewritten to per, the separator and
    the singular name; so a number right before them is a recognized
    measure. *)
Theorem bare_per_unit raw2 name2 :
  In (raw2, name2) measurements ->
  let per := "per" ++ NEMO_NON_BREAKING_SPACE ++ joined name2 in
  rewrites units_plural ("/" ++ raw2) per /\
  rewrites units_singular ("/" ++ raw2) per /\
  (forall n w,
      n <> "1" -> rewrites cardinal_graph n w ->
      rewrites MeasureFst (n ++ "/" ++ raw2)
        ("measure { cardinal { integer: " ++ quoted w ++ " } units: "
         ++ quoted per ++ " }")) /\
  rewrites MeasureFst ("1/" ++ raw2)
    ("measure { cardinal { integer: " ++ quoted "one" ++ " } units: "
     ++ quoted per ++ " }") /\
  (forall d w,
      rewrites (final_graph_wo_negative decimal) d w ->
      rewrites MeasureFst (d ++ "/" ++ raw2)
        ("measure { decimal { " ++ w ++ " } units: " ++ quoted per ++ " }")).
Proof.
  intros L per.
  assert (G : rewrites graph_unit2 ("/" ++ raw2) per).
  { apply (graph_unit2_lexicon "" raw2 name2 whitespace_nil L). }
  assert (P : rewrites units_plural ("/" ++ raw2) per).
  { apply rewrites_union. now right. }
  assert (S : rewrites units_singular ("/" ++ raw2) per).
  { apply rewrites_union. now right. }
  conjs; auto.
  - intros n w N C.
    eapply rewrites_eq;
      [ apply MeasureFst_intro, final_graph_spec; right; left;
        apply plain_cardinal_plural with (ws := ""); eauto using whitespace_nil
      | reflexivity | str_eq ].
  - eapply rewrites_eq;
      [ apply MeasureFst_intro, final_graph_spec; right; left;
        apply plain_cardinal_singular with (ws := ""); eauto using whitespace_nil
      | reflexivity | str_eq ].
  - intros d w D.
    eapply rewrites_eq;
      [ apply MeasureFst_intro, final_graph_spec; left;
        apply plain_decimal with (ws := ""); eauto using whitespace_nil
      | reflexivity | str_eq ].
Qed.

(** C10.  Whitespace between the number and the unit.  In the plain
    cardinal and decimal rules a run of whitespace between the number and
    the unit is deleted: the annotation of a number directly followed by a
    unit is also the annotation of the same number, the whitespace and the
    same unit.  And every path of these rules cuts its input in a number
    part, a gap of whitespace and a unit part, and writes an annotation that
    the gap has no part in: the same annotation is written with any other
    run of whitespace as the gap. *)
Theorem whitespace_before_unit ws r :
  whitespace ws ->
  (forall n w u,
      n <> "1" -> rewrites cardinal_graph n w -> rewrites units_plural r u ->
      let o := "measure { cardinal { integer: " ++ quoted w ++ " } units: "
               ++ quoted u ++ " }" in
      rewrites MeasureFst (n ++ r) o /\ rewrites MeasureFst (n ++ ws ++ r) o) /\
  (forall u,
      rewrites units_singular r u ->
      let o := "measure { cardinal { integer: " ++ quoted "one" ++ " } units: "
               ++ quoted u ++ " }" in
      rewrites MeasureFst ("1" ++ r) o /\ rewrites MeasureFst ("1" ++ ws ++ r) o) /\
  (forall d w u,
      rewrites (final_graph_wo_negative decimal) d w ->
      rewrites units_plural r u ->
      let o := "measure { decimal { " ++ w ++ " } units: " ++ quoted u ++ " }" in
      rewrites MeasureFst (d ++ r) o /\ rewrites MeasureFst (d ++ ws ++ r) o) /\
  (forall i o,
      rewrites (subgraph_cardinal <|> subgraph_decimal) i o ->
      exists num gap unit,
        i = num ++ gap ++ unit /\ whitespace gap /\
        rewrites (subgraph_cardinal <|> subgraph_decimal) (num ++ ws ++ unit) o /\
        rewrites (subgraph_cardinal <|> subgraph_decimal) (num ++ unit) o).
Proof.
  intros W. conjs.
  - intros n w u N C U o. split.
    + eapply rewrites_eq;
        [ apply MeasureFst_intro, final_graph_spec; right; left;
          apply plain_cardinal_plural with (ws := ""); eauto using whitespace_nil
        | reflexivity | subst o; str_eq ].
    + eapply rewrites_eq;
        [ apply MeasureFst_intro, final_graph_spec; right; left;
          apply plain_cardinal_plural with (ws := ws); eauto
        | reflexivity | subst o; str_eq ].
  - intros u U o. split.
    + eapply rewrites_eq;
        [ apply MeasureFst_intro, final_graph_spec; right; left;
          apply plain_cardinal_singular with (ws := ""); eauto using whitespace_nil
        | reflexivity | subst o; str_eq ].
    + eapply rewrites_eq;
        [ apply MeasureFst_intro, final_graph_spec; right; left;
          apply plain_cardinal_singular with (ws := ws); eauto
        | reflexivity | subst o; str_eq ].
  - intros d w u D U o. split.
    + eapply rewrites_eq;
        [ apply MeasureFst_intro, final_graph_spec; left;
          apply plain_decimal with (ws := ""); eauto using whitespace_nil
        | reflexivity | subst o; str_eq ].
    + eapply rewrites_eq;
        [ apply MeasureFst_intro, final_graph_spec; left;
          apply plain_decimal with (ws := ws); eauto
        | reflexivity | subst o; str_eq ].
  - intros i o H. apply rewrites_union in H as [H|H].
    + apply subgraph_cardinal_spec in H as [H|H].
      * apply subgraph_cardinal_plural_spec in H
          as (s0 & so & n & w & ws0 & r0 & u & -> & S & N & C & W0 & U & ->).
        exists (s0 ++ n), ws0, r0. conjs; auto; try str_eq.
        -- apply rewrites_union; left. apply subgraph_cardinal_spec; left.
           apply subgraph_cardinal_plural_spec.
           exists s0, so, n, w, ws, r0, u. conjs; auto; str_eq.
        -- apply rewrites_union; left. apply subgraph_cardinal_spec; left.
           apply subgraph_cardinal_plural_spec.
           exists s0, so, n, w, "", r0, u.
           conjs; auto using whitespace_nil; str_eq.
      * apply subgraph_cardinal_singular_spec in H
          as (s0 & so & ws0 & r0 & u & -> & S & W0 & U & ->).
        exists (s0 ++ "1"), ws0, r0. conjs; auto; try str_eq.
        -- apply rewrites_union; left. apply subgraph_cardinal_spec; right.
           apply subgraph_cardinal_singular_spec.
           exists s0, so, ws, r0, u. conjs; auto; str_eq.
        -- apply rewrites_union; left. apply subgraph_cardinal_spec; right.
           apply subgraph_cardinal_singular_spec.
           exists s0, so, "", r0, u.
           conjs; auto using whitespace_nil; str_eq.
    + apply subgraph_decimal_spec in H
        as (s0 & so & d & w & ws0 & r0 & u & -> & S & D & W0 & U & ->).
      exists (s0 ++ d), ws0, r0. conjs; auto; try str_eq.
      * apply rewrites_union; right. apply subgraph_decimal_spec.
        exists s0, so, d, w, ws, r0, u. conjs; auto; str_eq.
      * apply rewrites_union; right. apply subgraph_decimal_spec.
        exists s0, so, d, w, "", r0, u.
        conjs; auto using whitespace_nil; str_eq.
Qed.

(** *** Further properties of the tagger *)

(** The negative field as a string. *)
Lemma sign_field_marked i :
  sign_field ("-" ++ i) = "negative: " ++ quoted "true" ++ " ".
Proof. reflexivity. Qed.

Lemma unsigned_not_marked g i o :
  unsigned g -> rewrites g i o -> forall j r, "-" ++ j <> i ++ r.
Proof.
  intros U H j r K. destruct (U _ _ H) as (c & i' & -> & N).
  simpl in K. injection K as K _. congruence.
Qed.

Lemma starts_with_unmarked i j :
  Str.starts_with "-" i = false -> i <> "-" ++ j.
Proof. intros H ->. simpl in H. discriminate. Qed.

(** X1.  The sign is a prefix of its own.  With unsigned number grammars and
    an input that does not start with the marker, the plain cardinal rule
    (and the plain decimal rule) reads the marked input exactly when it
    reads the input, and writes the same annotation with the negative field
    put right after the opening of the block: the sign changes neither the
    number, nor the choice between singular and plural, nor the units. *)
Theorem sign_is_a_prefix i body :
  unsigned cardinal_graph ->
  unsigned (final_graph_wo_negative decimal) ->
  Str.starts_with "-" i = false ->
  (rewrites subgraph_cardinal ("-" ++ i)
     ("cardinal { " ++ "negative: " ++ quoted "true" ++ " " ++ body)
   <-> rewrites subgraph_cardinal i ("cardinal { " ++ body)) /\
  (rewrites subgraph_decimal ("-" ++ i)
     ("decimal { " ++ "negative: " ++ quoted "true" ++ " " ++ body)
   <-> rewrites subgraph_decimal i ("decimal { " ++ body)).
Proof.
  intros Uc Ud Hi. split; split; intros H.
  - (* the marked input is read: its marker is the sign *)
    apply subgraph_cardinal_spec in H as [H|H].
    + apply subgraph_cardinal_plural_spec in H
        as (s0 & so & n & w & ws & r & u & I & S & N & C & W & U & O).
      apply optional_graph_negative_spec in S as [[-> ->]|[-> ->]].
      * exfalso. now apply (unsigned_not_marked _ _ _ Uc C i (ws ++ r)).
      * injection I as I. subst i.
        apply (StrFacts.app_inv_head
                 ("cardinal { " ++ "negative: " ++ quoted "true" ++ " ")) in O.
        subst body. apply subgraph_cardinal_spec. left.
        apply subgraph_cardinal_plural_spec.
        exists "", "", n, w, ws, r, u. conjs; auto.
        apply optional_graph_negative_spec. now left.
    + apply subgraph_cardinal_singular_spec in H
        as (s0 & so & ws & r & u & I & S & W & U & O).
      apply optional_graph_negative_spec in S as [[-> ->]|[-> ->]].
      * discriminate I.
      * injection I as I. subst i.
        apply (StrFacts.app_inv_head
                 ("cardinal { " ++ "negative: " ++ quoted "true" ++ " ")) in O.
        subst body. apply subgraph_cardinal_spec. right.
        apply subgraph_cardinal_singular_spec.
        exists "", "", ws, r, u. conjs; auto.
        apply optional_graph_negative_spec. now left.
  - (* the input is read: no sign was taken, and one can be *)
    apply subgraph_cardinal_spec in H as [H|H].
    + apply subgraph_cardinal_plural_spec in H
        as (s0 & so & n & w & ws & r & u & I & S & N & C & W & U & O).
      apply optional_graph_negative_spec in S as [[-> ->]|[-> ->]].
      * apply (StrFacts.app_inv_head "cardinal { ") in O. subst body i.
        apply subgraph_cardinal_spec. left. apply subgraph_cardinal_plural_spec.
        exists "-", ("negative: " ++ quoted "true" ++ " "), n, w, ws, r, u.
        conjs; auto. apply optional_graph_negative_spec. now right.
      * exfalso. now apply (starts_with_unmarked _ _ Hi I).
    + apply subgraph_cardinal_singular_spec in H
        as (s0 & so & ws & r & u & I & S & W & U & O).
      apply optional_graph_negative_spec in S as [[-> ->]|[-> ->]].
      * apply (StrFacts.app_inv_head "cardinal { ") in O. subst body i.
        apply subgraph_cardinal_spec. right.
        apply subgraph_cardinal_singular_spec.
        exists "-", ("negative: " ++ quoted "true" ++ " "), ws, r, u.
        conjs; auto. apply optional_graph_negative_spec. now right.
      * exfalso. now apply (starts_with_unmarked _ _ Hi I).
  - apply subgraph_decimal_spec in H
      as (s0 & so & d & w & ws & r & u & I & S & D & W & U & O).
    apply optional_graph_negative_spec in S as [[-> ->]|[-> ->]].
    + exfalso. now apply (unsigned_not_marked _ _ _ Ud D i (ws ++ r)).
    + injection I as I. subst i.
      apply (StrFacts.app_inv_head
               ("decimal { " ++ "negative: " ++ quoted "true" ++ " ")) in O.
      subst body. apply subgraph_decimal_spec.
      exists "", "", d, w, ws, r, u. conjs; auto.
      apply optional_graph_negative_spec. now left.
  - apply subgraph_decimal_spec in H
      as (s0 & so & d & w & ws & r & u & I & S & D & W & U & O).
    apply optional_graph_negative_spec in S as [[-> ->]|[-> ->]].
    + apply (StrFacts.app_inv_head "decimal { ") in O. subst body i.
      apply subgraph_decimal_spec.
      exists "-", ("negative: " ++ quoted "true" ++ " "), d, w, ws, r, u.
      conjs; auto. apply optional_graph_negative_spec. now right.
    + exfalso. now apply (starts_with_unmarked _ _ Hi I).
Qed.

Lemma alphabetic_head a :
  alphabetic a -> exists c r, a = String c r /\ is_alpha c = true.
Proof.
  intros [N A]. destruct a as [|c r]; [congruence|].
  simpl in A. apply andb_true_iff in A as [A _]. now exists c, r.
Qed.

Lemma alphabetic_not_marked a j r :
  is_alpha "-" = false -> alphabetic a -> "-" ++ j <> a ++ r.
Proof.
  intros Hm A K. destruct (alphabetic_head a A) as (c & a' & -> & Hc).
  simpl in K. injection K as K _. congruence.
Qed.

(** X2.  The dash-joined rules take no sign.  With unsigned number grammars
    and a marker that is not alphabetic, an input that starts with the
    marker is read by the plain cardinal or the plain decimal rule only,
    never by one of the four dash rules, and its annotation carries the
    negative field. *)
Theorem marked_input_is_plain i o :
  unsigned cardinal_graph ->
  unsigned (final_graph_wo_negative decimal) ->
  is_alpha "-" = false ->
  rewrites MeasureFst ("-" ++ i) o ->
  exists a rest,
    o = "measure { " ++ a ++ " }" /\
    rewrites (subgraph_cardinal <|> subgraph_decimal) ("-" ++ i) a /\
    (a = "cardinal { " ++ "negative: " ++ quoted "true" ++ " " ++ rest \/
     a = "decimal { " ++ "negative: " ++ quoted "true" ++ " " ++ rest).
Proof.
  intros Uc Ud Hm H. apply MeasureFst_spec in H as (a & H & ->).
  apply final_graph_spec in H as [H|[H|[H|[H|[H|H]]]]].
  - pose proof H as H0. apply subgraph_decimal_spec in H
      as (s0 & so & d & w & ws & r & u & I & S & D & W & U & ->).
    apply optional_graph_negative_spec in S as [[-> ->]|[-> ->]].
    + exfalso. now apply (unsigned_not_marked _ _ _ Ud D i (ws ++ r)).
    + eexists _, (w ++ " } " ++ u). conjs; [reflexivity| |right; reflexivity].
      apply rewrites_union. now right.
  - pose proof H as H0. apply subgraph_cardinal_spec in H as [H|H].
    + apply subgraph_cardinal_plural_spec in H
        as (s0 & so & n & w & ws & r & u & I & S & N & C & W & U & ->).
      apply optional_graph_negative_spec in S as [[-> ->]|[-> ->]].
      * exfalso. now apply (unsigned_not_marked _ _ _ Uc C i (ws ++ r)).
      * eexists _, ("integer: " ++ quoted w ++ " } " ++ u).
        conjs; [reflexivity| |left; reflexivity].
        apply rewrites_union. now left.
    + apply subgraph_cardinal_singular_spec in H
        as (s0 & so & ws & r & u & I & S & W & U & ->).
      apply optional_graph_negative_spec in S as [[-> ->]|[-> ->]].
      * discriminate I.
      * eexists _, ("integer: " ++ quoted "one" ++ " } " ++ u).
        conjs; [reflexivity| |left; reflexivity].
        apply rewrites_union. now left.
  - exfalso. apply cardinal_dash_alpha_spec in H as (n & w & a' & I & C & A & _).
    now apply (unsigned_not_marked _ _ _ Uc C i ("-" ++ a')).
  - exfalso. apply alpha_dash_cardinal_spec in H as (a' & n & w & I & A & C & _).
    now apply (alphabetic_not_marked a' i ("-" ++ n) Hm A).
  - exfalso. apply decimal_dash_alpha_spec in H as (d & w & a' & I & D & A & _).
    now apply (unsigned_not_marked _ _ _ Ud D i ("-" ++ a')).
  - exfalso. apply alpha_dash_decimal_spec in H as (a' & d & w & I & A & D & _).
    now apply (alphabetic_not_marked a' i ("-" ++ d) Hm A).
Qed.

Lemma alphabetic_length a : alphabetic a -> 1 <= length a.
Proof.
  intros A. destruct (alphabetic_head a A) as (c & r & -> & _). simpl. lia.
Qed.

Lemma unsigned_length g i o : unsigned g -> rewrites g i o -> 1 <= length i.
Proof.
  intros U H. destruct (U _ _ H) as (c & r & -> & _). simpl. lia.
Qed.

Lemma graph_unit2_length i o : rewrites graph_unit2 i o -> 1 <= length i.
Proof.
  intros H. apply graph_unit2_spec in H as (ws & raw & u & -> & _).
  simpl. lia.
Qed.

Lemma units_plural_length r u :
  (forall raw name, In (raw, name) measurements -> raw <> "") ->
  rewrites units_plural r u -> 1 <= length r.
Proof.
  intros K H. apply rewrites_union in H as [H|H];
    [|now apply graph_unit2_length in H].
  apply rewrites_concat in H as (r1 & r2 & o1 & o2 & -> & _ & H & _).
  apply graph_unit_plural_spec in H as (name & pl & L & _).
  apply K in L. destruct r1; [congruence|simpl; lia].
Qed.

Lemma units_singular_length r u :
  (forall raw name, In (raw, name) measurements -> raw <> "") ->
  rewrites units_singular r u -> 1 <= length r.
Proof.
  intros K H. apply rewrites_union in H as [H|H];
    [|now apply graph_unit2_length in H].
  apply rewrites_concat in H as (r1 & r2 & o1 & o2 & -> & _ & H & _).
  apply graph_unit_spec in H as (name & L & _).
  apply K in L. destruct r1; [congruence|simpl; lia].
Qed.

(** X3.  Too short to be a measure.  With unsigned number grammars and no
    empty spelling in the lexicon, the empty input has no annotation, and
    every input with one has two characters at least (a number part and a
    unit part, neither of them empty). *)
Theorem recognized_input_length :
  unsigned cardinal_graph ->
  unsigned (final_graph_wo_negative decimal) ->
  (forall raw name, In (raw, name) measurements -> raw <> "") ->
  MeasureFst "" = [] /\
  (forall i o, rewrites MeasureFst i o -> 2 <= length i).
Proof.
  intros Uc Ud K.
  assert (L : forall i o, rewrites MeasureFst i o -> 2 <= length i).
  { intros i o H. apply MeasureFst_spec in H as (a & H & ->).
    apply final_graph_spec in H as [H|[H|[H|[H|[H|H]]]]].
    - apply subgraph_decimal_spec in H
        as (s0 & so & d & w & ws & r & u & -> & S & D & W & U & ->).
      apply unit_plural_spec in U as (u' & U & _).
      apply (unsigned_length _ _ _ Ud) in D.
      apply (units_plural_length _ _ K) in U.
      rewrite !StrFacts.length_app. lia.
    - apply subgraph_cardinal_spec in H as [H|H].
      + apply subgraph_cardinal_plural_spec in H
          as (s0 & so & n & w & ws & r & u & -> & S & N & C & W & U & ->).
        apply unit_plural_spec in U as (u' & U & _).
        apply (unsigned_length _ _ _ Uc) in C.
        apply (units_plural_length _ _ K) in U.
        rewrite !StrFacts.length_app. lia.
      + apply subgraph_cardinal_singular_spec in H
          as (s0 & so & ws & r & u & -> & S & W & U & ->).
        apply unit_singular_spec in U as (u' & U & _).
        apply (units_singular_length _ _ K) in U.
        rewrite !StrFacts.length_app. simpl. lia.
    - apply cardinal_dash_alpha_spec in H as (n & w & a' & -> & C & A & _).
      apply alphabetic_length in A.
      rewrite !StrFacts.length_app. simpl. lia.
    - apply alpha_dash_cardinal_spec in H as (a' & n & w & -> & A & C & _).
      apply (unsigned_length _ _ _ Uc) in C. apply alphabetic_length in A.
      rewrite !StrFacts.length_app. simpl. lia.
    - apply decimal_dash_alpha_spec in H as (d & w & a' & -> & D & A & _).
      apply alphabetic_length in A.
      rewrite !StrFacts.length_app. simpl. lia.
    - apply alpha_dash_decimal_spec in H as (a' & d & w & -> & A & D & _).
      apply (unsigned_length _ _ _ Ud) in D. apply alphabetic_length in A.
      rewrite !StrFacts.length_app. simpl. lia. }
  split; [|exact L].
  destruct (MeasureFst "") as [|o l] eqn:M; [reflexivity|exfalso].
  assert (H : rewrites MeasureFst "" o) by (unfold rewrites; rewrite M; now left).
  apply L in H. simpl in H. lia.
Qed.

(** X5.  The singular rule reads what the plural rule reads.  Whatever unit
    text the plural rule reads, the singular rule reads too, and writes the
    same units with the singular name in the place of the plural (the same
    units when they are a per-unit suffix alone); so the literal 1 before
    that unit text, with or without whitespace between, is a measure. *)
Theorem singular_reads_plural_units r u ws :
  rewrites units_plural r u -> whitespace ws ->
  exists u',
    rewrites units_singular r u' /\
    rewrites MeasureFst ("1" ++ ws ++ r)
      ("measure { cardinal { integer: " ++ quoted "one" ++ " } units: "
       ++ quoted u' ++ " }") /\
    (u' = u \/
     exists name pl suffix,
       rewrites SINGULAR_TO_PLURAL name pl /\
       u = joined pl ++ suffix /\ u' = joined name ++ suffix).
Proof.
  intros U W.
  assert (S : exists u', rewrites units_singular r u' /\
            (u' = u \/
             exists name pl suffix,
               rewrites SINGULAR_TO_PLURAL name pl /\
               u = joined pl ++ suffix /\ u' = joined name ++ suffix)).
  { apply rewrites_union in U as [U|U].
    - apply rewrites_concat in U as (r1 & r2 & o1 & o2 & -> & -> & U1 & U2).
      apply graph_unit_plural_spec in U1 as (name & pl & L & P & ->).
      exists (joined name ++ o2). split.
      + apply rewrites_union. left.
        apply concat_intro with r1 r2 (joined name) o2; auto.
        apply graph_unit_spec. now exists name.
      + right. now exists name, pl, o2.
    - exists u. split; [|now left]. apply rewrites_union. now right. }
  destruct S as (u' & S & R). exists u'. conjs; auto.
  eapply rewrites_eq;
    [ apply MeasureFst_intro, final_graph_spec; right; left;
      apply plain_cardinal_singular with (ws := ws); eauto
    | reflexivity | str_eq ].
Qed.

Lemma no_space_app a b : no_space (a ++ b) = no_space a && no_space b.
Proof.
  unfold no_space. induction a as [|c a IH]; simpl; [reflexivity|].
  now rewrite IH, andb_assoc.
Qed.

Lemma joined_no_space m :
  no_space NEMO_NON_BREAKING_SPACE = true -> no_space (joined m) = true.
Proof.
  intros Hn. unfold joined. induction m as [|c m IH]; [reflexivity|].
  simpl. rewrite no_space_app, IH, andb_true_r.
  destruct (Ascii.eqb c " ") eqn:E; [exact Hn|].
  unfold no_space. simpl. now rewrite E.
Qed.

Lemma graph_unit2_no_space i o :
  no_space NEMO_NON_BREAKING_SPACE = true ->
  rewrites graph_unit2 i o -> no_space o = true.
Proof.
  intros Hn H. apply graph_unit2_spec in H as (ws & raw & u & _ & _ & U & ->).
  apply graph_unit_spec in U as (name & _ & ->).
  rewrite !no_space_app, Hn, joined_no_space by exact Hn. reflexivity.
Qed.

Lemma optional_graph_unit2_no_space i o :
  no_space NEMO_NON_BREAKING_SPACE = true ->
  rewrites optional_graph_unit2 i o -> no_space o = true.
Proof.
  intros Hn H. apply optional_graph_unit2_spec in H
    as [[_ ->]|(ws & rest & p & _ & _ & G & ->)]; [reflexivity|].
  rewrite no_space_app, Hn. now apply graph_unit2_no_space in G.
Qed.

(** X6.  The units of the lexicon rules are one token.  When the separator
    holds no space, the units that the plural rule and the singular rule
    write hold none: the spaces of a unit name of several words and the
    whitespace around the division marker all come out as the separator. *)
Theorem units_are_one_token r u :
  no_space NEMO_NON_BREAKING_SPACE = true ->
  rewrites units_plural r u \/ rewrites units_singular r u ->
  no_space u = true.
Proof.
  intros Hn [H|H]; apply rewrites_union in H as [H|H];
    try (now apply graph_unit2_no_space in H);
    apply rewrites_concat in H as (r1 & r2 & o1 & o2 & -> & -> & U1 & U2);
    apply (optional_graph_unit2_no_space _ _ Hn) in U2;
    rewrite no_space_app, U2, andb_true_r.
  - apply graph_unit_plural_spec in U1 as (name & pl & _ & _ & ->).
    now apply joined_no_space.
  - apply graph_unit_spec in U1 as (name & _ & ->). now apply joined_no_space.
Qed.

Lemma all_chars_free (p : ascii -> bool) c a :
  all_chars p a = true -> p c = false -> forall x y, a <> x ++ String c y.
Proof.
  intros A Hc. induction a as [|d a IH]; intros x y K.
  - destruct x; discriminate K.
  - simpl in A. apply andb_true_iff in A as [Hd A].
    destruct x as [|e x]; simpl in K; injection K as K1 K2.
    + congruence.
    + now apply (IH A x y).
Qed.

Lemma split_at_last c n n' a a' :
  (forall x y, a <> x ++ String c y) -> (forall x y, a' <> x ++ String c y) ->
  n ++ String c a = n' ++ String c a' -> n = n' /\ a = a'.
Proof.
  intros Fa Fa'. revert n'. induction n as [|d n IH]; intros [|d' n'] K;
    simpl in K; inversion K; subst.
  - now split.
  - exfalso. now apply (Fa n' a').
  - exfalso. now apply (Fa' n a).
  - match goal with E : n ++ _ = n' ++ _ |- _ => destruct (IH _ E) as [-> ->] end.
    now split.
Qed.

Lemma split_at_first c a a' n n' :
  (forall x y, a <> x ++ String c y) -> (forall x y, a' <> x ++ String c y) ->
  a ++ String c n = a' ++ String c n' -> a = a' /\ n = n'.
Proof.
  revert a'. induction a as [|d a IH]; intros [|d' a'] Fa Fa' K;
    simpl in K; inversion K; subst.
  - now split.
  - exfalso. now apply (Fa' "" a').
  - exfalso. now apply (Fa "" a).
  - destruct (IH a') as [-> ->]; auto.
    + intros x y E. apply (Fa (String d' x) y). simpl. now rewrite E.
    + intros x y E. apply (Fa' (String d' x) y). simpl. now rewrite E.
Qed.

Lemma alphabetic_free a :
  is_alpha "-" = false -> alphabetic a -> forall x y, a <> x ++ String "-" y.
Proof. intros Hm [_ A]. now apply all_chars_free with is_alpha. Qed.

(** X7.  One reading for a dash-joined shape.  When the marker is not
    alphabetic and the number grammars write one output at most for an
    input, each of the four dash rules writes one annotation at most for an
    input: the alphabetic unit holds no dash, so the cut between the number
    and the unit is the last dash of a number-dash-unit input and the first
    dash of a unit-dash-number input. *)
Theorem dash_rules_have_one_reading :
  is_alpha "-" = false ->
  functional cardinal_graph ->
  functional (final_graph_wo_negative decimal) ->
  functional cardinal_dash_alpha /\ functional alpha_dash_cardinal /\
  functional decimal_dash_alpha /\ functional alpha_dash_decimal.
Proof.
  intros Hm Fc Fd. conjs; intros i o o' H H'.
  - apply cardinal_dash_alpha_spec in H as (n & w & a & -> & C & A & ->).
    apply cardinal_dash_alpha_spec in H' as (n' & w' & a' & I & C' & A' & ->).
    apply split_at_last in I as [<- <-]; auto using alphabetic_free.
    now rewrite (Fc _ _ _ C C').
  - apply alpha_dash_cardinal_spec in H as (a & n & w & -> & A & C & ->).
    apply alpha_dash_cardinal_spec in H' as (a' & n' & w' & I & A' & C' & ->).
    apply split_at_first in I as [<- <-]; auto using alphabetic_free.
    now rewrite (Fc _ _ _ C C').
  - apply decimal_dash_alpha_spec in H as (d & w & a & -> & D & A & ->).
    apply decimal_dash_alpha_spec in H' as (d' & w' & a' & I & D' & A' & ->).
    apply split_at_last in I as [<- <-]; auto using alphabetic_free.
    now rewrite (Fd _ _ _ D D').
  - apply alpha_dash_decimal_spec in H as (a & d & w & -> & A & D & ->).
    apply alpha_dash_decimal_spec in H' as (a' & d' & w' & I & A' & D' & ->).
    apply split_at_first in I as [<- <-]; auto using alphabetic_free.
    now rewrite (Fd _ _ _ D D').
Qed.


(** X9.  The plural rule reads what the singular rule reads, when every
    name of the lexicon has a plural: a unit text that makes a measure after
    the literal 1 makes one after the other cardinals. *)
Theorem plural_reads_singular_units r u' :
  (forall raw name,
      In (raw, name) measurements ->
      exists pl, rewrites SINGULAR_TO_PLURAL name pl) ->
  rewrites units_singular r u' ->
  exists u,
    rewrites units_plural r u /\
    (forall n w ws,
        n <> "1" -> rewrites cardinal_graph n w -> whitespace ws ->
        rewrites MeasureFst (n ++ ws ++ r)
          ("measure { cardinal { integer: " ++ quoted w ++ " } units: "
           ++ quoted u ++ " }")).
Proof.
  intros T S.
  assert (P : exists u, rewrites units_plural r u).
  { apply rewrites_union in S as [S|S].
    - apply rewrites_concat in S as (r1 & r2 & o1 & o2 & -> & -> & S1 & S2).
      apply graph_unit_spec in S1 as (name & L & ->).
      destruct (T _ _ L) as [pl Pl]. exists (joined pl ++ o2).
      apply rewrites_union. left.
      apply concat_intro with r1 r2 (joined pl) o2; auto.
      apply graph_unit_plural_spec. now exists name, pl.
    - exists u'. apply rewrites_union. now right. }
  destruct P as [u P]. exists u. split; [exact P|].
  intros n w ws N C W.
  eapply rewrites_eq;
    [ apply MeasureFst_intro, final_graph_spec; right; left;
      apply plain_cardinal_plural with (ws := ws); eauto
    | reflexivity | str_eq ].
Qed.

End MeasureFacts.

(** ** The two modes *)

Section Modes.

Context {Env : Setting}.



(** No annotation opens with the negative field: the field is written
    inside the block of the number. *)
Lemma annotation_opens_with_block i o :
  rewrites MeasureFst i o ->
  Str.starts_with "measure { negative" o = false.
Proof.
  intros H. apply MeasureFst_spec in H as (ann & H & ->).
  apply final_graph_spec in H. destruct H as [H|[H|[H|[H|[H|H]]]]].
  - apply subgraph_decimal_spec in H
      as (s0 & so & d & w & ws & r & u & -> & S & D & W & U & ->). reflexivity.
  - apply subgraph_cardinal_spec in H as [H|H].
    + apply subgraph_cardinal_plural_spec in H
        as (s0 & so & n & w & ws & r & u & -> & S & N & C & W & U & ->).
      reflexivity.
    + apply subgraph_cardinal_singular_spec in H
        as (s0 & so & ws & r & u & -> & S & W & U & ->). reflexivity.
  - apply cardinal_dash_alpha_spec in H as (n & w & a & -> & C & A & ->).
    reflexivity.
  - apply alpha_dash_cardinal_spec in H as (a & n & w & -> & A & C & ->).
    reflexivity.
  - apply decimal_dash_alpha_spec in H as (d & w & a & -> & D & A & ->).
    reflexivity.
  - apply alpha_dash_decimal_spec in H as (a & d & w & -> & A & D & ->).
    reflexivity.
Qed.

(** The rule set in deterministic mode, as a function of the cardinal
    graph it is built on. *)
Local Notation "'built_on' g" :=
  (MeasureFst (Env := with_mode (with_graph Env g) true))
  (at level 10, g at level 9).

Lemma built_on_mono (g g' : Fst) i o :
  (forall n w, rewrites g n w -> rewrites g' n w) ->
  rewrites (built_on g) i o -> rewrites (built_on g') i o.
Proof.
  intros M H.
  apply MeasureFst_spec in H as (ann & H & ->). apply MeasureFst_intro.
  apply final_graph_spec in H. apply final_graph_spec.
  destruct H as [H|[H|[H|[H|[H|H]]]]].
  - left. exact H.
  - right; left. apply subgraph_cardinal_spec in H.
    apply subgraph_cardinal_spec. destruct H as [H|H]; [left|right; exact H].
    apply subgraph_cardinal_plural_spec in H
      as (s0 & so & n & w & ws & r & u & -> & S & N & C & W & U & ->).
    apply subgraph_cardinal_plural_spec. exists s0, so, n, w, ws, r, u.
    repeat (split; auto); try (now apply M).
  - right; right; left.
    apply cardinal_dash_alpha_spec in H as (n & w & a & -> & C & A & ->).
    apply cardinal_dash_alpha_spec. exists n, w, a.
    repeat (split; auto); try apply A; try (now apply M).
  - do 3 right; left.
    apply alpha_dash_cardinal_spec in H as (a & n & w & -> & A & C & ->).
    apply alpha_dash_cardinal_spec. exists a, n, w.
    repeat (split; auto); try apply A; try (now apply M).
  - do 4 right; left. exact H.
  - do 5 right. exact H.
Qed.

Lemma built_on_union (g g' : Fst) i o :
  rewrites (built_on (g <|> g')) i o ->
  rewrites (built_on g) i o \/ rewrites (built_on g') i o.
Proof.
  intros H. apply MeasureFst_spec in H as (ann & H & ->).
  apply final_graph_spec in H. destruct H as [H|[H|[H|[H|[H|H]]]]].
  - left. apply MeasureFst_intro, final_graph_spec. left. exact H.
  - apply subgraph_cardinal_spec in H as [H|H].
    + apply subgraph_cardinal_plural_spec in H
        as (s0 & so & n & w & ws & r & u & -> & S & N & C & W & U & ->).
      apply rewrites_union in C as [C|C]; [left|right];
        apply MeasureFst_intro, final_graph_spec; right; left;
        apply subgraph_cardinal_spec; left;
        apply subgraph_cardinal_plural_spec; exists s0, so, n, w, ws, r, u;
        repeat (split; auto).
    + left. apply MeasureFst_intro, final_graph_spec. right; left.
      apply subgraph_cardinal_spec. right. exact H.
  - apply cardinal_dash_alpha_spec in H as (n & w & a & -> & C & A & ->).
    apply rewrites_union in C as [C|C]; [left|right];
      apply MeasureFst_intro, final_graph_spec; right; right; left;
      apply cardinal_dash_alpha_spec; exists n, w, a;
      repeat (split; auto); apply A.
  - apply alpha_dash_cardinal_spec in H as (a & n & w & -> & A & C & ->).
    apply rewrites_union in C as [C|C]; [left|right];
      apply MeasureFst_intro, final_graph_spec; do 3 right; left;
      apply alpha_dash_cardinal_spec; exists a, n, w;
      repeat (split; auto); apply A.
  - left. apply MeasureFst_intro, final_graph_spec. do 4 right; left. exact H.
  - left. apply MeasureFst_intro, final_graph_spec. do 5 right. exact H.
Qed.

(** X4.  The rule set of the other mode.  With deterministic = false the
    candidates of an input are those of the rule set built with
    deterministic = true, together with those of the same rule set built on
    the range graph in the place of the cardinal graph: the range phrasing
    is read wherever a cardinal is (the plural branch and the two cardinal
    dash rules), and nowhere else. *)
Theorem non_deterministic_rule_set i o :
  rewrites (MeasureFst (Env := with_mode Env false)) i o <->
  rewrites (MeasureFst (Env := with_mode Env true)) i o \/
  rewrites (built_on (range_graph cardinal)) i o.
Proof.
  split.
  - intros H.
    change (rewrites (built_on (graph cardinal <|> range_graph cardinal)) i o)
      in H.
    apply built_on_union in H as [H|H]; [left|right]; exact H.
  - intros [H|H].
    + change (rewrites (built_on (graph cardinal)) i o) in H.
      change (rewrites (built_on (graph cardinal <|> range_graph cardinal)) i o).
      revert H. apply built_on_mono. intros n w C.
      apply rewrites_union. now left.
    + change (rewrites (built_on (graph cardinal <|> range_graph cardinal)) i o).
      revert H. apply built_on_mono. intros n w C.
      apply rewrites_union. now right.
Qed.

End Modes.

(** ** The tagger on the sample collaborators *)

Lemma sample_cardinal_unsigned det :
  unsigned (cardinal_graph (Env := Sample.setting det)).
Proof.
  intros i o H. unfold cardinal_graph in H. destruct det; simpl in H.
  - apply rewrites_string_file in H. simpl in H.
    repeat (destruct H as [H|H]; [inversion H; subst;
      eexists _, _; split; [reflexivity|discriminate]|]). destruct H.
  - apply rewrites_union in H as [H|H]; apply rewrites_string_file in H;
      simpl in H;
      repeat (destruct H as [H|H]; [inversion H; subst;
        eexists _, _; split; [reflexivity|discriminate]|]); destruct H.
Qed.

Lemma sample_decimal_unsigned :
  unsigned (final_graph_wo_negative Sample.decimals).
Proof.
  intros i o H. apply rewrites_string_file in H. simpl in H.
  repeat (destruct H as [H|H]; [inversion H; subst;
    eexists _, _; split; [reflexivity|discriminate]|]). destruct H.
Qed.

Lemma sample_names_nonempty raw name :
  In (raw, name) Sample.lexicon -> name <> "".
Proof.
  simpl. intros H.
  repeat (destruct H as [H|H]; [inversion H; subst; discriminate|]). destruct H.
Qed.

Lemma sample_plural_nonempty name pl :
  rewrites Sample.plural_s name pl -> pl <> "".
Proof.
  intros H. apply rewrites_concat in H as (i1 & i2 & o1 & o2 & _ & -> & _ & H).
  apply rewrites_insert in H as [_ ->]. intros E.
  apply StrFacts.app_eq_nil in E as [_ E]. discriminate.
Qed.

Lemma sample_space : whitespace (Env := Sample.setting true) " ".
Proof. apply (run_cons _ " " ""); [now left|constructor]. Qed.

Lemma sample_ounce : alphabetic (Env := Sample.setting true) "ounce".
Proof. split; [discriminate|reflexivity]. Qed.

(** The inputs of the docstring. *)
Example sample_1kg :
  Sample.tagger true "1kg"
  = ["measure { cardinal { integer: " ++ quoted "one" ++ " } units: "
     ++ quoted "kilogram" ++ " }"].
Proof. vm_compute. reflexivity. Qed.

Example sample_point_5kg :
  Sample.tagger true ".5kg"
  = ["measure { decimal { fractional_part: " ++ quoted "five" ++ " } units: "
     ++ quoted "kilograms" ++ " }"].
Proof. vm_compute. reflexivity. Qed.

(** C2.  On -12kg the tagger writes the negative field inside the cardinal
    block, after its opening, and not before the block as the docstring of
    the class shows it. *)
Theorem negative_inside_cardinal_block :
  Sample.tagger true "-12kg"
  = ["measure { cardinal { negative: " ++ quoted "true" ++ " integer: "
     ++ quoted "twelve" ++ " } units: " ++ quoted "kilograms" ++ " }"] /\
  ~ In ("measure { negative: " ++ quoted "true" ++ " cardinal { integer: "
        ++ quoted "twelve" ++ " } units: " ++ quoted "kilograms" ++ " }")
       (Sample.tagger true "-12kg").
Proof.
  split; [vm_compute; reflexivity|].
  vm_compute. intros [H|[]]. discriminate H.
Qed.

Lemma unit_form_selection_witness :
  In ("kg", "kilogram") Sample.lexicon /\
  rewrites (Sample.tagger true) "12kg"
    ("measure { cardinal { integer: " ++ quoted "twelve" ++ " } units: "
     ++ quoted "kilograms" ++ " }") /\
  rewrites (Sample.tagger true) "1kg"
    ("measure { cardinal { integer: " ++ quoted "one" ++ " } units: "
     ++ quoted "kilogram" ++ " }") /\
  rewrites (Sample.tagger true) ".5kg"
    ("measure { decimal { fractional_part: " ++ quoted "five" ++ " } units: "
     ++ quoted "kilograms" ++ " }").
Proof.
  assert (L : In ("kg", "kilogram") Sample.lexicon) by (simpl; auto).
  destruct (unit_form_selection (Env := Sample.setting true) "kg" "kilogram" L)
    as (P & S & _ & D & _).
  split; [exact L|]. split; [|split].
  - apply (P "12" "twelve" "kilograms");
      [discriminate | vm_compute; auto | vm_compute; auto].
  - exact S.
  - apply (D ".5" ("fractional_part: " ++ quoted "five") "kilograms");
      vm_compute; auto.
Defined.


Lemma dash_joined_shapes_witness :
  alphabetic (Env := Sample.setting true) "ounce" /\
  rewrites (Sample.tagger true) "5-ounce"
    ("measure { cardinal { integer: " ++ quoted "five" ++ " } units: "
     ++ quoted "ounce" ++ " }") /\
  rewrites (Sample.tagger true) "ounce-5"
    ("measure { units: " ++ quoted "ounce" ++ " cardinal { integer: "
     ++ quoted "five" ++ " } preserve_order: true }").
Proof.
  destruct (dash_joined_shapes (Env := Sample.setting true) "ounce" sample_ounce)
    as (N & _ & U & _).
  split; [exact sample_ounce|]. split.
  - apply (N "5" "five"). vm_compute. auto.
  - apply (U "5" "five"). vm_compute. auto.
Defined.

Lemma per_unit_suffix_witness :
  In ("hour", "hour") Sample.lexicon /\
  whitespace (Env := Sample.setting true) " " /\
  rewrites (Sample.tagger true) "5miles / hour"
    ("measure { cardinal { integer: " ++ quoted "five" ++ " } units: "
     ++ quoted ("miles" ++ Sample.nbsp ++ "per" ++ Sample.nbsp ++ "hour")
     ++ " }").
Proof.
  assert (L : In ("hour", "hour") Sample.lexicon) by (simpl; auto).
  destruct (per_unit_suffix (Env := Sample.setting true) "hour" "hour" " " " " L
              sample_space sample_space) as (_ & _ & _ & M & _).
  split; [exact L|]. split; [exact sample_space|].
  apply (M "5" "five" "miles" "mile" "miles");
    [discriminate | vm_compute; auto | simpl; auto | vm_compute; auto].
Defined.


Lemma units_never_empty_witness :
  exists pre r u post,
    (rewrites (units_plural (Env := Sample.setting true)) r u \/
     rewrites (units_singular (Env := Sample.setting true)) r u \/
     rewrites (pynini.closure_1 (NEMO_ALPHA (Env := Sample.setting true))) r u) /\
    "measure { cardinal { integer: " ++ quoted "five" ++ " } units: "
    ++ quoted "kilograms" ++ " }"
    = pre ++ "units: " ++ quoted u ++ post /\
    u <> "".
Proof.
  apply (units_never_empty (Env := Sample.setting true) "5kg").
  - discriminate.
  - exact sample_names_nonempty.
  - intros raw name pl _. apply sample_plural_nonempty.
  - unfold rewrites. vm_compute. auto.
Defined.

Lemma bare_per_unit_witness :
  In ("hour", "hour") Sample.lexicon /\
  rewrites (Sample.tagger true) "5/hour"
    ("measure { cardinal { integer: " ++ quoted "five" ++ " } units: "
     ++ quoted ("per" ++ Sample.nbsp ++ "hour") ++ " }") /\
  rewrites (Sample.tagger true) "1/hour"
    ("measure { cardinal { integer: " ++ quoted "one" ++ " } units: "
     ++ quoted ("per" ++ Sample.nbsp ++ "hour") ++ " }").
Proof.
  assert (L : In ("hour", "hour") Sample.lexicon) by (simpl; auto).
  destruct (bare_per_unit (Env := Sample.setting true) "hour" "hour" L)
    as (_ & _ & P & S & _).
  split; [exact L|]. split; [|exact S].
  apply (P "5" "five"); [discriminate | vm_compute; auto].
Defined.

Lemma whitespace_before_unit_witness :
  whitespace (Env := Sample.setting true) " " /\
  rewrites (Sample.tagger true) "12kg"
    ("measure { cardinal { integer: " ++ quoted "twelve" ++ " } units: "
     ++ quoted "kilograms" ++ " }") /\
  rewrites (Sample.tagger true) "12 kg"
    ("measure { cardinal { integer: " ++ quoted "twelve" ++ " } units: "
     ++ quoted "kilograms" ++ " }").
Proof.
  destruct (whitespace_before_unit (Env := Sample.setting true) " " "kg"
              sample_space) as (P & _).
  split; [exact sample_space|].
  apply (P "12" "twelve" "kilograms");
    [discriminate | vm_compute; auto | vm_compute; auto].
Defined.


(** The other inputs the specification lists. *)
Example sample_ounce_5 :
  Sample.tagger true "ounce-5"
  = ["measure { units: " ++ quoted "ounce" ++ " cardinal { integer: "
     ++ quoted "five" ++ " } preserve_order: true }"].
Proof. vm_compute. reflexivity. Qed.

Example sample_5_miles_per_hour :
  Sample.tagger true "5 miles/hour"
  = ["measure { cardinal { integer: " ++ quoted "five" ++ " } units: "
     ++ quoted ("miles" ++ Sample.nbsp ++ "per" ++ Sample.nbsp ++ "hour")
     ++ " }"].
Proof. vm_compute. reflexivity. Qed.

Example sample_range_only_when_not_deterministic :
  Sample.tagger true "2-5kg" = [] /\
  Sample.tagger false "2-5kg"
  = ["measure { cardinal { integer: " ++ quoted "two to five" ++ " } units: "
     ++ quoted "kilograms" ++ " }"].
Proof. split; vm_compute; reflexivity. Qed.

(** ** The further properties on the sample collaborators *)

Lemma sample_marker_not_alpha : Sample.alpha "-" = false.
Proof. reflexivity. Qed.

Lemma sample_spellings_nonempty raw name :
  In (raw, name) Sample.lexicon -> raw <> "".
Proof.
  simpl. intros H.
  repeat (destruct H as [H|H]; [inversion H; subst; discriminate|]). destruct H.
Qed.

Lemma sample_cardinal_functional :
  functional (cardinal_graph (Env := Sample.setting true)).
Proof.
  intros i o o' H H'. apply rewrites_string_file in H, H'. simpl in H, H'.
  repeat (destruct H as [H|H];
    [ inversion H; subst; clear H;
      repeat (destruct H' as [H'|H']; [inversion H'; subst; try reflexivity|]);
      destruct H' |]).
  destruct H.
Qed.

Lemma sample_decimal_functional :
  functional (final_graph_wo_negative Sample.decimals).
Proof.
  intros i o o' H H'. apply rewrites_string_file in H, H'. simpl in H, H'.
  repeat (destruct H as [H|H];
    [ inversion H; subst; clear H;
      repeat (destruct H' as [H'|H']; [inversion H'; subst; try reflexivity|]);
      destruct H' |]).
  destruct H.
Qed.

Lemma sample_plural_total name : rewrites Sample.plural_s name (name ++ "s").
Proof.
  apply concat_intro with name "" name "s".
  - now apply rewrites_NEMO_SIGMA.
  - apply insert_intro.
  - now rewrite StrFacts.app_nil_r.
  - reflexivity.
Qed.

Lemma sign_is_a_prefix_witness :
  Str.starts_with "-" "12kg" = false /\
  rewrites (subgraph_cardinal (Env := Sample.setting true)) "-12kg"
    ("cardinal { negative: " ++ quoted "true" ++ " integer: "
     ++ quoted "twelve" ++ " } units: " ++ quoted "kilograms").
Proof.
  split; [reflexivity|].
  apply (sign_is_a_prefix (Env := Sample.setting true) "12kg"
           ("integer: " ++ quoted "twelve" ++ " } units: " ++ quoted "kilograms")
           (sample_cardinal_unsigned true) sample_decimal_unsigned eq_refl).
  unfold rewrites. vm_compute. auto.
Defined.

Lemma marked_input_is_plain_witness :
  exists a rest,
    "measure { cardinal { negative: " ++ quoted "true" ++ " integer: "
    ++ quoted "one" ++ " } units: " ++ quoted "kilogram" ++ " }"
    = "measure { " ++ a ++ " }" /\
    rewrites (subgraph_cardinal (Env := Sample.setting true)
              <|> subgraph_decimal (Env := Sample.setting true)) "-1kg" a /\
    (a = "cardinal { " ++ "negative: " ++ quoted "true" ++ " " ++ rest \/
     a = "decimal { " ++ "negative: " ++ quoted "true" ++ " " ++ rest).
Proof.
  apply (marked_input_is_plain (Env := Sample.setting true) "1kg" _
           (sample_cardinal_unsigned true) sample_decimal_unsigned
           sample_marker_not_alpha).
  unfold rewrites. vm_compute. auto.
Defined.

Lemma recognized_input_length_witness :
  Sample.tagger true "" = [] /\ 2 <= length "5/h".
Proof.
  destruct (recognized_input_length (Env := Sample.setting true)
              (sample_cardinal_unsigned true) sample_decimal_unsigned
              sample_spellings_nonempty) as [E L].
  split; [exact E|].
  apply (L "5/h" ("measure { cardinal { integer: " ++ quoted "five"
                  ++ " } units: " ++ quoted ("per" ++ Sample.nbsp ++ "hour")
                  ++ " }")).
  unfold rewrites. vm_compute. auto.
Defined.

Lemma singular_reads_plural_units_witness :
  exists u',
    rewrites (units_singular (Env := Sample.setting true)) "kg" u' /\
    rewrites (Sample.tagger true) "1 kg"
      ("measure { cardinal { integer: " ++ quoted "one" ++ " } units: "
       ++ quoted u' ++ " }") /\
    (u' = "kilograms" \/
     exists name pl suffix,
       rewrites Sample.plural_s name pl /\
       "kilograms" = joined (Env := Sample.setting true) pl ++ suffix /\
       u' = joined (Env := Sample.setting true) name ++ suffix).
Proof.
  apply (singular_reads_plural_units (Env := Sample.setting true)
           "kg" "kilograms" " ").
  - unfold rewrites. vm_compute. auto.
  - exact sample_space.
Defined.

Lemma units_are_one_token_witness :
  no_space Sample.nbsp = true /\
  no_space ("square" ++ Sample.nbsp ++ "foots") = true.
Proof.
  split; [reflexivity|].
  apply (units_are_one_token (Env := Sample.setting true) "sq ft");
    [reflexivity|]. left. unfold rewrites. vm_compute. auto.
Defined.

Lemma dash_rules_have_one_reading_witness :
  functional (cardinal_dash_alpha (Env := Sample.setting true)) /\
  functional (alpha_dash_cardinal (Env := Sample.setting true)) /\
  functional (decimal_dash_alpha (Env := Sample.setting true)) /\
  functional (alpha_dash_decimal (Env := Sample.setting true)).
Proof.
  exact (dash_rules_have_one_reading (Env := Sample.setting true)
           sample_marker_not_alpha sample_cardinal_functional
           sample_decimal_functional).
Defined.


Lemma plural_reads_singular_units_witness :
  exists u,
    rewrites (units_plural (Env := Sample.setting true)) "kg" u /\
    (forall n w ws,
        n <> "1" ->
        rewrites (cardinal_graph (Env := Sample.setting true)) n w ->
        whitespace (Env := Sample.setting true) ws ->
        rewrites (Sample.tagger true) (n ++ ws ++ "kg")
          ("measure { cardinal { integer: " ++ quoted w ++ " } units: "
           ++ quoted u ++ " }")).
Proof.
  apply (plural_reads_singular_units (Env := Sample.setting true)
           "kg" "kilogram").
  - intros raw name _. exists (name ++ "s"). apply sample_plural_total.
  - unfold rewrites. vm_compute. auto.
Defined.
